(* ===== verification/_CoqProject ===== *)
-Q . S2P
Prelude.v
Dataset.v
Geometry.v
Render.v
Scheduler.v
Drag.v
Sparkle.v
Reveal.v
Page.v
Markup.v
Boot.v
