(* ===== verification/Prelude.v ===== *)
(** * A verification library for the credentials timeline renderer

    The repository renders a "credentials" timeline into the page element
    [#credentials-root].  Two source files make up the program:

    - [src/timeline.js] exports the dataset [CREDENTIALS_SECTION]: a record
      with an id, a title, a type and an ordered list of cards (heading,
      date, description).
    - [src/credentials.js] mounts it.  [renderTimeline] builds the DOM (a
      rope, an SVG surface and a [ul] with one [li.timeline-item] per card,
      each holding a dot, a [time] element and a content box); the inner
      function [drawConnectors] coalesces redraw requests into one
      [requestAnimationFrame] callback, which clears the SVG and draws one
      cubic Bezier connector per item from the dot's centre to the nearest
      edge of the content box; an [IntersectionObserver] callback marks
      items [in-view] and calls [emitDotSparkle]; [enableCardDrag] gives
      every content box a drag offset clamped to a circle of radius 120
      with a spring-back on release; window [resize] (debounced 120 ms) and
      [scroll] events request redraws.

    ** Files, in dependency order, and what they model

    - [Prelude]   (this file): the [tl_scope] notations for comparisons on
      numbers, the tactics [qconst], [qcases], [qarith], the [tl] and
      [tl_rw] hint databases and the generic lemmas on lists and rationals.
    - [Dataset]   [src/timeline.js]: the records [Card], [TimelineSection]
      and the literal [CREDENTIALS_SECTION]; a decidable check that its
      cards are plain text in chronological order.
    - [Geometry]  the body of the frame callback of [drawConnectors]
      (lines 47-81).  [Connector.connector] is one item's Bezier (lines
      58-73); [Pass.draw_pass] the [forEach] over the items after the SVG is
      cleared.  Theorems: the end point is the nearest edge of the content
      box, the curve stays within the horizontal span of its end points
      unless the box straddles the centre line (a finding), one connector
      per item with both boxes, idempotence of a pass.
    - [Render]    [createEl], the DOM part of [renderTimeline] (lines 8-39)
      and the [DOMContentLoaded] listener (lines 171-175) as an element
      tree; [qsa] is [querySelectorAll] by class.  Theorems: one
      [li.timeline-item] per card in order with its date, rendering then a
      pass gives one connector per card, rendering twice replaces.
    - [Scheduler] the [rafState] flag and [drawConnectors] (lines 42-47)
      against a queue of animation-frame callbacks, refined against an
      abstract "redraw pending" bit ([RedrawSpec]): any number of requests
      before a frame give exactly one pass.
    - [Drag]      [enableCardDrag] (lines 136-168): the three listeners on
      a [DragItem] record, the Web Animation of the spring-back and the
      abstract machine [DragSpec] (Idle, Dragging, SnappingBack) which the
      listeners refine; the offset never leaves the circle of radius 120.
    - [Sparkle]   [emitDotSparkle] (lines 111-134): 8 sparks, 4 random
      draws each, the ranges of their parameters.
    - [Reveal]    the [IntersectionObserver] callback (lines 86-95):
      [in-view] is added and never removed, a burst on every entry into
      view (a finding: the spec says once), none under reduced motion.
    - [Page]      the event loop composing all of them (lines 40-108,
      136-168): a [Page] record holding the scheduler, the SVG, the clock,
      the [setTimeout] timers, the resize debounce handle, the reveal state
      and the drag items; [page_step] handles one event and [reachable] is
      the closure from [page_init].  Theorems by rule induction on
      [reachable]: the scheduler stays well formed, timer ids stay
      distinct, every live burst has a pending removal timer and is gone
      once the clock passes it, a resize burst yields one redraw 120 ms
      after its last event, a released card settles within 920 ms.
    - [Markup]    reads a rendered entry back as a browser displays it
      (the [<h3>]/[<p>] template of line 33 and the [time] text), with the
      HTML tokenizer's rule that [<] opens a tag only before a letter,
      [/], [!] or [?]: plain-text cards round-trip; a heading holding a
      tag opening does not.
    - [Boot]      [PREFERS_REDUCED] (line 6), [renderTimeline] as the DOM
      paired with the initial page, the [DOMContentLoaded] listener and a
      session of events after it.  Theorems composing [Render] and [Page]:
      a session keeps one reveal and one drag state per card; under
      reduced motion no random value is drawn, no burst is attached and
      only redraw timers are ever pending.

    ** Numbers, oracles and fuel

    JavaScript numbers are IEEE doubles.  Every computation of the geometry
    pass and of the drag handlers uses only [+], [-], [*], [/] and
    [Math.abs] on them, so they are modelled exactly over the rationals [Q]
    (rounding is not modelled).  [Math.hypot] is not a rational function:
    [Drag] takes it through the class [Hypot] with the laws of a norm,
    instantiated by the maximum norm in the witnesses.  [Math.random] is an
    oracle stream [nat -> Q] of values in [0,1) read at a counter.  Time is
    a rational clock advanced by the [Advance] event; [Page.fire_due] fires
    due timers one at a time and takes as fuel the number of timers, which
    is enough because each firing removes one timer and no timer callback
    adds a timer ([fire_due_complete]).

    ** Not modelled

    Browser layout (the bounding boxes are inputs of a frame), the easing
    curves and keyframe interpolation of animations (only their start,
    duration and end state), [Math.cos]/[Math.sin] (the spark target is
    kept as its angle and radius), number formatting of the [d] attribute,
    the observer's threshold and root margin (the [isIntersecting] flag is
    an input), HTML parsing of [innerHTML] (markup is kept unparsed) and
    the CSS of the page.  These are library or browser behaviour that the
    sources only call; [Markup] reads text back only for markup without
    character references, which is what the dataset holds.  The window
    listeners [renderTimeline] registers are never removed: the model has
    one [renderTimeline] call per page, as the load listener makes.
    Later work: the coupling of the drag offset with the geometry read by
    the next frame, and a page-level statement of re-triggered bursts
    over time. *)

From Stdlib Require Import QArith Qabs Qminmax Lqa List Bool Lia.
Import ListNotations.

Declare Scope tl_scope.
Delimit Scope tl_scope with tl.
Open Scope Q_scope.

(** ** Booleans for JavaScript comparisons on numbers *)

(** [a < b] on numbers, as a boolean the models branch on. *)
Definition Qltb (x y : Q) : bool := negb (Qle_bool y x).

Notation "x <? y" := (Qltb x y) (at level 70, no associativity) : tl_scope.
Notation "x <=? y" := (Qle_bool x y) (at level 70, no associativity) : tl_scope.

(** The results of [f] on every element, or [None] as soon as one fails. *)
Fixpoint map_option {A B} (f : A -> option B) (l : list A) : option (list B) :=
  match l with
  | [] => Some []
  | x :: r =>
      match f x, map_option f r with
      | Some y, Some ys => Some (y :: ys)
      | _, _ => None
      end
  end.

Lemma Qltb_spec (x y : Q) : reflect (x < y) (Qltb x y).
Proof.
  unfold Qltb. destruct (Qle_bool y x) eqn:E; constructor.
  - apply Qle_bool_iff in E. exact (Qle_not_lt y x E).
  - apply Qnot_le_lt. intro H. apply Qle_bool_iff in H. congruence.
Qed.

Lemma Qle_bool_spec (x y : Q) : reflect (x <= y) (Qle_bool x y).
Proof.
  destruct (Qle_bool x y) eqn:E; constructor.
  - now apply Qle_bool_iff.
  - intro H. apply Qle_bool_iff in H. congruence.
Qed.

(** ** Arithmetic automation

    [lra] over [Q] does not read [/ c] for a literal [c] as a constant:
    [qconst] turns [x / c] into [x * (1 # c)] first. *)
Ltac qconst :=
  unfold Qdiv in *;
  repeat match goal with
  | |- context [Qinv (Zpos ?p # 1)] => change (Qinv (Zpos p # 1)) with (1 # p)
  | H : context [Qinv (Zpos ?p # 1)] |- _ =>
      change (Qinv (Zpos p # 1)) with (1 # p) in H
  end.

(** Case analysis on the boolean comparisons of a goal. *)
Ltac qcases :=
  repeat match goal with
  | |- context [Qltb ?x ?y] => destruct (Qltb_spec x y)
  | |- context [Qle_bool ?x ?y] => destruct (Qle_bool_spec x y)
  | H : context [Qltb ?x ?y] |- _ => destruct (Qltb_spec x y)
  end;
  repeat match goal with
  | H : ~ (?a < ?b) |- _ => apply Qnot_lt_le in H
  | H : ~ (?a <= ?b) |- _ => apply Qnot_le_lt in H
  end.

(** Close an arithmetic goal over [Q]: constants, absolute values, then
    [lra] or [nra]. *)
Ltac qarith :=
  qconst;
  repeat match goal with
  | |- context [Qabs ?e] =>
      let H := fresh "Habs" in
      destruct (Qlt_le_dec e 0) as [H | H];
      [ rewrite (Qabs_neg e) by (apply Qlt_le_weak; exact H)
      | rewrite (Qabs_pos e) by exact H ]
  end;
  first [ lra | nra ].

Create HintDb tl.
Create Rewrite HintDb tl_rw.

(** ** Lists *)

(** A JavaScript [forEach] that appends what each element produces: the
    accumulating fold is the [flat_map] of the elements. *)
Lemma fold_left_app_flat_map {A B} (f : A -> list B) (l : list A) (acc : list B) :
  fold_left (fun acc x => acc ++ f x) l acc = acc ++ flat_map f l.
Proof.
  revert acc; induction l as [|x l IH]; intros acc; simpl.
  - now rewrite app_nil_r.
  - now rewrite IH, app_assoc.
Qed.

#[export] Hint Rewrite @fold_left_app_flat_map : tl_rw.

(** [flat_map] of a function that yields at most one element. *)
Lemma length_flat_map_opt {A B} (f : A -> option B) (l : list A) :
  length (flat_map (fun x => match f x with Some y => [y] | None => [] end) l)
  = length (filter (fun x => match f x with Some _ => true | None => false end) l).
Proof.
  induction l as [|x l IH]; simpl; [reflexivity|].
  destruct (f x); simpl; now rewrite ?IH.
Qed.

(** Reading back what [g] wrote: when [f] inverts [g] on the elements of
    [l], it inverts [map g] on [l]. *)
Lemma map_option_map {A B} (f : A -> option B) (g : B -> A) (l : list B) :
  (forall y, In y l -> f (g y) = Some y) -> map_option f (map g l) = Some l.
Proof.
  induction l as [|y l IH]; intros H; simpl; [reflexivity|].
  rewrite H by (left; reflexivity).
  rewrite IH by (intros z Hz; apply H; right; exact Hz). reflexivity.
Qed.

(** ** Nonnegative combinations, for Bezier curves *)

Lemma Qmult_nonneg3 (a b c : Q) : 0 <= a -> 0 <= b -> 0 <= c -> 0 <= a * b * c.
Proof.
  intros. apply Qmult_le_0_compat; [apply Qmult_le_0_compat|]; assumption.
Qed.

#[export] Hint Resolve Qmult_le_0_compat Qmult_nonneg3 : tl.
