(* ===== verification/Dataset.v ===== *)
(** * The timeline dataset ([src/timeline.js])

    [CREDENTIALS_SECTION] is a JavaScript object literal with an [id], a
    [title], a [type] and an ordered array of cards.  It is modelled as a
    [TimelineSection] record whose [cards] field is a list of [Card]
    records, in the order of the literal.  Strings are Rocq strings holding
    the UTF-8 bytes of the literals (JavaScript strings are UTF-16; no
    operation of the program depends on the encoding). *)

From Stdlib Require Import String List Ascii Bool.
From S2P Require Import Prelude.
Import ListNotations.
Open Scope string_scope.

(** A card: the static content of one timeline entry. *)
Record Card := mkCard {
  heading : string;
  date : string;
  description : string
}.

(** The section handed to [renderTimeline]. *)
Record TimelineSection := mkSection {
  id : string;
  title : string;
  type : string;
  cards : list Card
}.

(** [export const CREDENTIALS_SECTION = {...}] *)
Definition CREDENTIALS_SECTION : TimelineSection := {|
  id := "credentials";
  title := "Credentials";
  type := "timeline";
  cards := [
    {| heading := "First Steps into Design";
       date := "2020";
       description := "Started exploring UI/UX and graphic design using Figma, learning interface basics and modern design principles through self-practice." |};
    {| heading := "Began Bachelor’s in Computer Engineering";
       date := "2021";
       description := "Began my Bachelor’s in Computer Engineering at Cosmos College of Management and Technology, diving into programming, systems, and tech fundamentals." |};
    {| heading := "Leveling Up in Design Tools";
       date := "2022";
       description := "Expanded my skills in Adobe Illustrator and Canva, learning to combine visual aesthetics with brand-focused design for creative projects." |};
    {| heading := "Built ‘Park In’ Prototype";
       date := "2023";
       description := "Designed and developed Park In, a parking assistant app built using Flutter, integrating smart parking flow and user-friendly design." |};
    {| heading := "Creative Lead at CosmoFest 2025";
       date := "2024";
       description := "Worked as the lead graphic designer for CosmoFest 2025, creating visual identities and promotional materials—won 1st place in project demonstration competition." |};
    {| heading := "Deep Diving into DevOps & Automation";
       date := "2025";
       description := "Pursuing advanced learning in DevOps, automation, Linux, and system reliability while refining UI/UX and development skills." |}
  ] |}.

(** ** Checks on the text of a card

    [renderTimeline] writes [card.date] through [innerHTML] and splices
    [card.heading] and [card.description] into an HTML template without
    escaping, so a card renders as plain text only when its strings hold
    no markup: no [<] (a tag) and no [&] followed by a letter or [#]
    (a character reference). *)

(** An ASCII letter. *)
Definition is_letter (c : ascii) : bool :=
  let n := nat_of_ascii c in
  (Nat.leb 65 n && Nat.leb n 90) || (Nat.leb 97 n && Nat.leb n 122).

Definition is_ref_start (c : ascii) : bool := is_letter c || Ascii.eqb c "#"%char.

Fixpoint markup_free (s : string) : bool :=
  match s with
  | EmptyString => true
  | String c rest =>
      if Ascii.eqb c "<"%char then false
      else if Ascii.eqb c "&"%char then
        match rest with
        | String d _ => negb (is_ref_start d) && markup_free rest
        | EmptyString => true
        end
      else markup_free rest
  end.

Definition card_plain (c : Card) : bool :=
  markup_free (heading c) && markup_free (date c) && markup_free (description c).

(** Four decimal digits, read as a year. *)
Definition year_of (s : string) : option nat :=
  match s with
  | String a (String b (String c (String d EmptyString))) =>
      let dg x := nat_of_ascii x - 48 in
      if forallb (fun x => Nat.leb 48 (nat_of_ascii x) && Nat.leb (nat_of_ascii x) 57)
                 [a; b; c; d]
      then Some (1000 * dg a + 100 * dg b + 10 * dg c + dg d)
      else None
  | _ => None
  end.

(** The dates of a card list are four-digit years in strictly increasing
    order. *)
Fixpoint chronological_from (prev : nat) (l : list Card) : bool :=
  match l with
  | [] => true
  | c :: rest =>
      match year_of (date c) with
      | Some y => Nat.ltb prev y && chronological_from y rest
      | None => false
      end
  end.

(** ** Properties of the dataset *)

(** C36: the exported section holds six cards, dated 2020 to 2025 in
    strictly increasing order, and no card holds markup, so the unescaped
    [innerHTML] writes of [renderTimeline] render this dataset as text. *)
Theorem credentials_section_wf :
  length (cards CREDENTIALS_SECTION) = 6%nat
  /\ chronological_from 0 (cards CREDENTIALS_SECTION) = true
  /\ forallb card_plain (cards CREDENTIALS_SECTION) = true
  /\ map year_of (map date (cards CREDENTIALS_SECTION))
     = map Some [2020; 2021; 2022; 2023; 2024; 2025]%nat.
Proof. vm_compute. repeat split. Qed.
