(* ===== verification/Geometry.v ===== *)
(** * The connector geometry engine ([drawConnectors]'s frame callback)

    [src/credentials.js], lines 47-81: once per animation frame the
    callback removes every child of the SVG surface, reads the bounding
    box of the container, and for every [li.timeline-item] in document
    order reads the boxes of its dot and content elements and appends one
    [path] element whose [d] attribute is a cubic Bezier curve from the
    dot's centre to an edge of the content box.

    - [Connector] models one item: [Rect] is a [DOMRect] (only [left],
      [top], [width] and [height] are read), [connector] the computation of
      lines 56-73 as a [Bezier] curve, [path_of] the [path] element of
      lines 70-80, with its [d] attribute as a list of SVG path commands
      (the formatting of the numbers into the attribute string is not
      modelled).  [bez_x] evaluates the curve as SVG draws it.
    - [Pass] models the whole callback body except the [rafState] reset
      (modelled in [Scheduler]): [ItemView] is what the callback reads of
      one item (the boxes of its dot and content, [None] when
      [querySelector] finds no element), [clear_children] the [while] loop
      of line 49 and [draw_pass] the [forEach] of lines 52-81. *)

From Stdlib Require Import QArith Qabs Lqa List String.
From S2P Require Import Prelude.
Import ListNotations.
Open Scope Q_scope.

Module Connector.

(** A [DOMRect] as returned by [getBoundingClientRect]. *)
Record Rect := mkRect { left : Q; top : Q; width : Q; height : Q }.

(** A point in the container's coordinates. *)
Record Point := mkPoint { px : Q; py : Q }.

(** The cubic curve of one connector: [M start C cp1 cp2 end]. *)
Record Bezier := mkBezier { start : Point; cp1 : Point; cp2 : Point; end_ : Point }.

(** Lines 58-73: start at the dot's centre, end on the content's right
    edge when its left edge is left of the container's centre line and on
    its left edge otherwise, at the content's vertical centre; the control
    points are shifted horizontally by 35% of [|endX - startX|]. *)
Definition connector (svgRect dRect cRect : Rect) : Bezier :=
  let startX := left dRect + width dRect / 2 - left svgRect in
  let startY := top dRect + height dRect / 2 - top svgRect in
  let endX :=
    if (left cRect <? left svgRect + width svgRect / 2)%tl
    then left cRect + width cRect - left svgRect
    else left cRect - left svgRect in
  let endY := top cRect + height cRect / 2 - top svgRect in
  let dx := Qabs (endX - startX) in
  let cp1x := startX + dx * 0.35 in
  let cp2x := endX - dx * 0.35 in
  {| start := mkPoint startX startY;
     cp1 := mkPoint cp1x startY;
     cp2 := mkPoint cp2x endY;
     end_ := mkPoint endX endY |}.

(** SVG path commands of a [d] attribute. *)
Inductive PathSeg :=
  | MoveTo (x y : Q)
  | CurveTo (x1 y1 x2 y2 x y : Q).

(** A [path] element with the attributes set on lines 75-79. *)
Record SvgPath := mkSvgPath {
  d : list PathSeg;
  stroke : string;
  stroke_width : string;
  fill : string;
  stroke_linecap : string
}.

(** Lines 70-79: the element for a curve;
    [d = `M ${startX} ${startY} C ${cp1x} ${startY} ${cp2x} ${endY} ${endX} ${endY}`]. *)
Definition path_of (b : Bezier) : SvgPath :=
  {| d := [MoveTo (px (start b)) (py (start b));
           CurveTo (px (cp1 b)) (py (cp1 b)) (px (cp2 b)) (py (cp2 b))
                   (px (end_ b)) (py (end_ b))];
     stroke := "rgba(152,232,205,0.18)";
     stroke_width := "2";
     fill := "none";
     stroke_linecap := "round" |}.

(** The x coordinate SVG draws at parameter [t] of the curve. *)
Definition bez_x (b : Bezier) (t : Q) : Q :=
  let u := 1 - t in
  u * u * u * px (start b) + 3 * u * u * t * px (cp1 b)
  + 3 * u * t * t * px (cp2 b) + t * t * t * px (end_ b).

(** Derived quantities used to state the properties. *)
Definition mid_x (svgRect : Rect) : Q := left svgRect + width svgRect / 2.
Definition right_edge (svgRect cRect : Rect) : Q := left cRect + width cRect - left svgRect.
Definition left_edge (svgRect cRect : Rect) : Q := left cRect - left svgRect.

End Connector.

Module Pass.
Import Connector.

(** What the frame callback reads of one [li.timeline-item]: the boxes
    of [item.querySelector('.timeline-dot')] and
    [item.querySelector('.timeline-content')], [None] when absent. *)
Record ItemView := mkItemView { dot_rect : option Rect; content_rect : option Rect }.

(** Lines 53-80, one iteration of the [forEach]: [return] early when an
    element is missing, otherwise append one path. *)
Definition item_paths (svgRect : Rect) (it : ItemView) : list SvgPath :=
  match dot_rect it, content_rect it with
  | Some dRect, Some cRect => [path_of (connector svgRect dRect cRect)]
  | _, _ => []
  end.

(** Line 49: [while (svg.firstChild) svg.removeChild(svg.firstChild)]. *)
Fixpoint clear_children (children : list SvgPath) : list SvgPath :=
  match children with
  | [] => []
  | _ :: rest => clear_children rest
  end.

(** Lines 48-81 without the flag reset: clear the surface, then append
    the paths of the items in document order. *)
Definition draw_pass (svg : list SvgPath) (svgRect : Rect) (items : list ItemView)
  : list SvgPath :=
  fold_left (fun acc it => acc ++ item_paths svgRect it) items (clear_children svg).

(** The items that get a connector: both elements present. *)
Definition complete (it : ItemView) : option (Rect * Rect) :=
  match dot_rect it, content_rect it with
  | Some dRect, Some cRect => Some (dRect, cRect)
  | _, _ => None
  end.

(** The reference result of a pass: one path per complete item, in
    order, and nothing else. *)
Definition connectors (svgRect : Rect) (items : list ItemView) : list SvgPath :=
  map (fun '(dRect, cRect) => path_of (connector svgRect dRect cRect))
      (flat_map (fun it => match complete it with Some p => [p] | None => [] end) items).

End Pass.

(** A sample layout: an 800 x 600 container, a dot on the rope at its
    centre line, one content box right of the rope and one left of it. *)
Module Layouts.
Import Connector.

Definition container : Rect := mkRect 0 0 800 600.
Definition dot : Rect := mkRect 395 100 10 10.
Definition right_card : Rect := mkRect 450 80 300 60.
Definition left_card : Rect := mkRect 50 200 300 60.
Definition straddling_card : Rect := mkRect 350 300 200 60.

End Layouts.

(** ** Properties of one connector *)

Module ConnectorFacts.
Import Connector.

(** The four Bernstein weights of a cubic sum to one. *)
Lemma bernstein_sum (t : Q) :
  (1 - t) * (1 - t) * (1 - t) + 3 * (1 - t) * (1 - t) * t
  + 3 * (1 - t) * t * t + t * t * t == 1.
Proof. ring. Qed.

(** Convex hull property in x: a curve whose four x coordinates lie in
    [[lo, hi]] stays in [[lo, hi]] for [t] in [[0, 1]]. *)
Lemma bez_x_hull (b : Bezier) (lo hi t : Q) :
  0 <= t <= 1 ->
  lo <= px (start b) <= hi -> lo <= px (cp1 b) <= hi ->
  lo <= px (cp2 b) <= hi -> lo <= px (end_ b) <= hi ->
  lo <= bez_x b t <= hi.
Proof.
  intros [Ht0 Ht1] [Hs0 Hs1] [Ha0 Ha1] [Hb0 Hb1] [He0 He1].
  unfold bez_x.
  assert (Hu : 0 <= 1 - t) by lra.
  pose proof (bernstein_sum t) as Hsum.
  assert (W0 : 0 <= (1 - t) * (1 - t) * (1 - t)) by auto with tl.
  assert (W1 : 0 <= 3 * (1 - t) * (1 - t) * t)
    by (apply Qmult_le_0_compat; [apply Qmult_nonneg3; lra | lra]).
  assert (W2 : 0 <= 3 * (1 - t) * t * t)
    by (apply Qmult_le_0_compat; [apply Qmult_nonneg3; lra | lra]).
  assert (W3 : 0 <= t * t * t) by auto with tl.
  set (w0 := (1 - t) * (1 - t) * (1 - t)) in *.
  set (w1 := 3 * (1 - t) * (1 - t) * t) in *.
  set (w2 := 3 * (1 - t) * t * t) in *.
  set (w3 := t * t * t) in *.
  split; nra.
Qed.

(** The control points of a connector in terms of its end points. *)
Lemma connector_cp1 (svgRect dRect cRect : Rect) :
  let b := connector svgRect dRect cRect in
  px (cp1 b) = px (start b) + Qabs (px (end_ b) - px (start b)) * 0.35.
Proof. reflexivity. Qed.

Lemma connector_cp2 (svgRect dRect cRect : Rect) :
  let b := connector svgRect dRect cRect in
  px (cp2 b) = px (end_ b) - Qabs (px (end_ b) - px (start b)) * 0.35.
Proof. reflexivity. Qed.

(** The end point's x, by the branch of line 62. *)
Lemma connector_end_x (svgRect dRect cRect : Rect) :
  px (end_ (connector svgRect dRect cRect))
  = if (left cRect <? mid_x svgRect)%tl then right_edge svgRect cRect
    else left_edge svgRect cRect.
Proof. reflexivity. Qed.

(** C4: the connector starts at the dot's centre and ends at the content's
    vertical centre, on its right edge when the content's left edge is
    left of the container's centre line and on its left edge otherwise,
    the boundary case [left = mid] included (container coordinates). *)
Theorem connector_end_edge (svgRect dRect cRect : Rect) :
  let b := connector svgRect dRect cRect in
  (left cRect < mid_x svgRect -> px (end_ b) == right_edge svgRect cRect)
  /\ (mid_x svgRect <= left cRect -> px (end_ b) == left_edge svgRect cRect)
  /\ py (end_ b) == top cRect + height cRect / 2 - top svgRect
  /\ px (start b) == left dRect + width dRect / 2 - left svgRect
  /\ py (start b) == top dRect + height dRect / 2 - top svgRect.
Proof.
  cbv zeta. rewrite connector_end_x.
  repeat split; qcases; intros; try reflexivity; lra.
Qed.

(** C32: when the content box lies wholly on one side of the container's
    centre line, the edge the connector attaches to is the one nearer to
    that line. *)
Theorem connector_nearest_edge (svgRect dRect cRect : Rect) :
  0 <= width cRect ->
  left cRect + width cRect <= mid_x svgRect \/ mid_x svgRect <= left cRect ->
  let m := mid_x svgRect - left svgRect in
  let e := px (end_ (connector svgRect dRect cRect)) in
  Qabs (e - m) <= Qabs (right_edge svgRect cRect - m)
  /\ Qabs (e - m) <= Qabs (left_edge svgRect cRect - m).
Proof.
  intros Hw Hside. cbv zeta. rewrite connector_end_x.
  unfold right_edge, left_edge in *.
  qcases; split; try apply Qle_refl; qarith.
Qed.

(** C33: a content box that straddles the centre line is always attached
    at its right edge, and whenever its centre lies right of that line,
    the right edge is strictly farther from the line than its left edge:
    the code does not attach to the nearer edge. *)
Theorem connector_straddle_far_edge (svgRect dRect cRect : Rect) :
  left cRect < mid_x svgRect < left cRect + width cRect ->
  let m := mid_x svgRect - left svgRect in
  let e := px (end_ (connector svgRect dRect cRect)) in
  e = right_edge svgRect cRect
  /\ (mid_x svgRect - left cRect < left cRect + width cRect - mid_x svgRect ->
      Qabs (left_edge svgRect cRect - m) < Qabs (e - m)).
Proof.
  intros [Hl Hr]. cbv zeta. rewrite connector_end_x.
  unfold right_edge, left_edge in *. qcases; [|lra].
  split; [reflexivity|]. intros Hc. qarith.
Qed.

(** C31: when the content's attachment point is right of the dot, the
    drawn curve stays horizontally between its two end points. *)
Theorem connector_within_span (svgRect dRect cRect : Rect) (t : Q) :
  let b := connector svgRect dRect cRect in
  px (start b) <= px (end_ b) -> 0 <= t <= 1 ->
  px (start b) <= bez_x b t <= px (end_ b).
Proof.
  cbv zeta. intros Hse Ht.
  apply bez_x_hull; [exact Ht | | | |]; revert Hse;
    rewrite ?connector_cp1, ?connector_cp2;
    generalize (px (start (connector svgRect dRect cRect))),
      (px (end_ (connector svgRect dRect cRect)));
    intros s e Hse; qarith.
Qed.

(** C30: when the attachment point is left of the dot (content on the left
    of the rope), the first control point lies right of the dot, so the
    curve leaves the dot moving away from the content: at [t = 1/10] it is
    already strictly right of its start. *)
Theorem connector_overshoot (svgRect dRect cRect : Rect) :
  let b := connector svgRect dRect cRect in
  px (end_ b) < px (start b) -> px (start b) < bez_x b (1 # 10).
Proof.
  cbv zeta. unfold bez_x. rewrite connector_cp1, connector_cp2.
  generalize (px (start (connector svgRect dRect cRect))),
    (px (end_ (connector svgRect dRect cRect))).
  intros s e H. qarith.
Qed.

End ConnectorFacts.

(** ** Properties of the pass *)

Module PassFacts.
Import Connector Pass.

(** The [while] loop of line 49 terminates with an empty surface. *)
Lemma clear_children_nil (children : list SvgPath) : clear_children children = [].
Proof. induction children; simpl; auto. Qed.

#[export] Hint Rewrite clear_children_nil : tl_rw.

Lemma flat_map_item_paths (svgRect : Rect) (items : list ItemView) :
  flat_map (item_paths svgRect) items = connectors svgRect items.
Proof.
  unfold connectors; induction items as [|it items IH]; [reflexivity|].
  simpl; rewrite IH, map_app.
  unfold item_paths, complete; destruct (dot_rect it), (content_rect it); reflexivity.
Qed.

#[export] Hint Rewrite flat_map_item_paths : tl_rw.

Lemma connectors_app (svgRect : Rect) (l1 l2 : list ItemView) :
  connectors svgRect (l1 ++ l2) = connectors svgRect l1 ++ connectors svgRect l2.
Proof. unfold connectors. now rewrite flat_map_app, map_app. Qed.

Lemma draw_pass_connectors (svg : list SvgPath) (svgRect : Rect) (items : list ItemView) :
  draw_pass svg svgRect items = connectors svgRect items.
Proof.
  unfold draw_pass. autorewrite with tl_rw. reflexivity.
Qed.

(** C3: a frame pass replaces whatever the SVG surface held by exactly
    the connectors of the items whose dot and content are both present,
    in document order. *)
Theorem draw_pass_spec (svg : list SvgPath) (svgRect : Rect) (items : list ItemView) :
  draw_pass svg svgRect items = connectors svgRect items.
Proof. apply draw_pass_connectors. Qed.

(** C13: running the pass again on an unchanged layout leaves the surface
    as it is: the redraw is idempotent. *)
Theorem draw_pass_idempotent (svg : list SvgPath) (svgRect : Rect) (items : list ItemView) :
  draw_pass (draw_pass svg svgRect items) svgRect items = draw_pass svg svgRect items.
Proof. now rewrite !draw_pass_connectors. Qed.

(** C29: exactly one path per item with both elements, whatever the
    surface held before. *)
Theorem draw_pass_one_per_item (svg : list SvgPath) (svgRect : Rect) (items : list ItemView) :
  List.length (draw_pass svg svgRect items)
  = List.length (filter (fun it => match complete it with Some _ => true | None => false end) items).
Proof.
  rewrite draw_pass_connectors. unfold connectors. rewrite length_map.
  apply length_flat_map_opt.
Qed.

(** C28: an item whose dot or content is missing is skipped without
    affecting the connectors of the items before and after it. *)
Theorem draw_pass_skip_missing (svg : list SvgPath) (svgRect : Rect)
    (l1 l2 : list ItemView) (it : ItemView) :
  complete it = None ->
  draw_pass svg svgRect (l1 ++ it :: l2) = connectors svgRect l1 ++ connectors svgRect l2.
Proof.
  intros H. rewrite draw_pass_connectors, connectors_app.
  unfold connectors at 2. simpl. now rewrite H.
Qed.

End PassFacts.

(** ** Witnesses on the sample layout *)

Module GeometryWitness.
Import Connector Pass ConnectorFacts PassFacts Layouts.

Lemma connector_end_edge_witness :
  px (end_ (connector container dot right_card)) == left_edge container right_card
  /\ px (end_ (connector container dot left_card)) == right_edge container left_card.
Proof.
  split.
  - apply (connector_end_edge container dot right_card). vm_compute. discriminate.
  - apply (connector_end_edge container dot left_card). reflexivity.
Defined.

(** A box from 90 to 190 in a container whose centre line is at 100. *)
Lemma connector_straddle_far_edge_witness :
  let m := mid_x container - left container in
  let e := px (end_ (connector container dot straddling_card)) in
  e = right_edge container straddling_card
  /\ (mid_x container - left straddling_card
      < left straddling_card + width straddling_card - mid_x container ->
      Qabs (left_edge container straddling_card - m) < Qabs (e - m)).
Proof. apply (connector_straddle_far_edge container dot straddling_card). split; vm_compute; reflexivity. Defined.

Lemma connector_nearest_edge_witness :
  let m := mid_x container - left container in
  let e := px (end_ (connector container dot right_card)) in
  Qabs (e - m) <= Qabs (right_edge container right_card - m)
  /\ Qabs (e - m) <= Qabs (left_edge container right_card - m).
Proof.
  apply (connector_nearest_edge container dot right_card).
  - vm_compute. discriminate.
  - right. vm_compute. discriminate.
Defined.

Lemma connector_within_span_witness :
  let b := connector container dot right_card in
  px (start b) <= bez_x b (1 # 2) <= px (end_ b).
Proof.
  apply (connector_within_span container dot right_card (1 # 2)).
  - vm_compute. discriminate.
  - split; vm_compute; discriminate.
Defined.

Lemma connector_overshoot_witness :
  let b := connector container dot left_card in
  px (start b) < bez_x b (1 # 10).
Proof.
  apply (connector_overshoot container dot left_card). reflexivity.
Defined.

Lemma draw_pass_skip_missing_witness :
  draw_pass [] container
    ([mkItemView (Some dot) (Some right_card)] ++ mkItemView None (Some left_card)
       :: [mkItemView (Some dot) (Some left_card)])
  = connectors container [mkItemView (Some dot) (Some right_card)]
    ++ connectors container [mkItemView (Some dot) (Some left_card)].
Proof. apply draw_pass_skip_missing. reflexivity. Defined.

End GeometryWitness.
