(* ===== verification/Render.v ===== *)
(** * DOM construction ([createEl], [renderTimeline] lines 15-39, mount)

    [src/credentials.js], lines 8-39 and 170-175: [createEl] creates an
    element with [document.createElement], sets its attributes in order and
    optionally its [innerHTML]; [renderTimeline] empties the container and
    appends a rope, the connector surface and a [ul] holding one
    [li.timeline-item] per card (a dot, a [time] with the date, a content
    box holding the heading and description); on [DOMContentLoaded] the
    renderer runs on [#credentials-root] when it exists.

    - [Node] is an element with its namespace, tag, attribute list (in
      insertion order) and children, or markup assigned through
      [innerHTML] ([Html], kept as the unparsed string the code assigns).
    - [qsa] is [querySelectorAll('.c')] on the descendants of a node
      (document order, class tokens split on spaces), [query] is
      [querySelector].
    - The code appends the list to the container before filling it; the
      container holds a reference to the list, so the final tree is the one
      built by filling the list first ([renderTimeline_dom]).
    - [html_text] is the text a browser shows for markup without character
      references: tags removed. *)

From Stdlib Require Import String List Ascii Bool Lia.
From S2P Require Import Prelude Dataset Geometry.
Import ListNotations.
Open Scope string_scope.

(** [document.createElement] creates HTML elements;
    [document.createElementNS('http://www.w3.org/2000/svg', ...)] SVG
    ones. *)
Inductive Ns := HTML | SVG.

#[warnings="-register-all"]
Inductive Node :=
  | Elem (ns : Ns) (tag : string) (attrs : list (string * string)) (children : list Node)
  | Html (markup : string).

(** [el.setAttribute(k, v)]: replace the value of an existing attribute,
    append a new one otherwise. *)
Definition setAttribute (k v : string) (n : Node) : Node :=
  match n with
  | Elem ns t attrs ch =>
      if existsb (fun kv => String.eqb (fst kv) k) attrs
      then Elem ns t (map (fun kv => if String.eqb (fst kv) k then (k, v) else kv) attrs) ch
      else Elem ns t (attrs ++ [(k, v)]) ch
  | Html s => Html s
  end.

(** [el.innerHTML = html]: the children are replaced by the markup. *)
Definition set_innerHTML (html : string) (n : Node) : Node :=
  match n with
  | Elem ns t attrs _ => Elem ns t attrs (if String.eqb html "" then [] else [Html html])
  | Html s => Html s
  end.

(** [parent.appendChild(child)]. *)
Definition appendChild (child parent : Node) : Node :=
  match parent with
  | Elem ns t attrs ch => Elem ns t attrs (ch ++ [child])
  | Html s => Html s
  end.

(** Lines 8-13. *)
Definition createEl (tag : string) (attrs : list (string * string)) (html : option string) : Node :=
  let el := Elem HTML tag [] [] in
  let el := fold_left (fun el kv => setAttribute (fst kv) (snd kv) el) attrs el in
  match html with
  | Some h => set_innerHTML h el
  | None => el
  end.

(** Line 33: the markup of a card's content box, the heading and the
    description spliced into the template without escaping. *)
Definition inner_html (card : Card) : string :=
  "<h3>" ++ heading card ++ "</h3><p>" ++ description card ++ "</p>".

(** Lines 28-38: the entry of one card. *)
Definition render_card (card : Card) : Node :=
  let li := createEl "li" [("class", "timeline-item")] None in
  let dot := createEl "div" [("class", "timeline-dot"); ("role", "img"); ("aria-hidden", "true")] None in
  let time := createEl "time" [] (Some (date card)) in
  let content := createEl "div" [("class", "timeline-content"); ("tabindex", "0")] None in
  let inner := createEl "div" [("class", "parallax-inner")] None in
  let inner := set_innerHTML (inner_html card) inner in
  let content := appendChild inner content in
  appendChild content (appendChild time (appendChild dot li)).

(** Lines 16-39: the container's content after rendering. *)
Definition renderTimeline_dom (container : Node) (section : TimelineSection) : Node :=
  let container := set_innerHTML "" container in
  let rope := createEl "div" [("class", "rope"); ("aria-hidden", "true")] None in
  let svg := createEl "svg" [("class", "timeline-svg"); ("aria-hidden", "true")] None in
  let svg := setAttribute "height" "100%" (setAttribute "width" "100%" svg) in
  let list := createEl "ul" [("class", "timeline-list")] None in
  let list := fold_left (fun list card => appendChild (render_card card) list) (cards section) list in
  appendChild list (appendChild svg (appendChild rope container)).

(** Lines 171-175: render into [#credentials-root] when it exists. *)
Definition mount (root : option Node) : option Node :=
  match root with
  | None => None
  | Some c => Some (renderTimeline_dom c CREDENTIALS_SECTION)
  end.

(** The element [#credentials-root] of a page, empty. *)
Definition sample_root : Node := Elem HTML "section" [("id", "credentials-root")] [].

(** ** Queries *)

(** The space-separated tokens of a [class] attribute. *)
Fixpoint tokens_aux (acc : string) (s : string) : list string :=
  match s with
  | EmptyString => if String.eqb acc "" then [] else [acc]
  | String c rest =>
      if Ascii.eqb c " "%char
      then (if String.eqb acc "" then [] else [acc]) ++ tokens_aux "" rest
      else tokens_aux (acc ++ String c EmptyString) rest
  end.

Definition matches_class (c : string) (n : Node) : bool :=
  match n with
  | Elem _ _ attrs _ =>
      existsb (fun kv => String.eqb (fst kv) "class" && existsb (String.eqb c) (tokens_aux "" (snd kv)))
              attrs
  | Html _ => false
  end.

(** Matches of [.c] in a subtree, the root included, in document order. *)
Fixpoint qsa_self (c : string) (n : Node) : list Node :=
  match n with
  | Elem _ _ _ ch => (if matches_class c n then [n] else []) ++ flat_map (qsa_self c) ch
  | Html _ => []
  end.

(** [n.querySelectorAll('.c')]: the descendants only. *)
Definition qsa (c : string) (n : Node) : list Node :=
  match n with
  | Elem _ _ _ ch => flat_map (qsa_self c) ch
  | Html _ => []
  end.

(** [n.querySelector('.c')]. *)
Definition query (c : string) (n : Node) : option Node := hd_error (qsa c n).

(** The children with a tag. *)
Definition children_tagged (t : string) (n : Node) : list Node :=
  match n with
  | Elem _ _ _ ch => filter (fun x => match x with Elem _ t' _ _ => String.eqb t' t | Html _ => false end) ch
  | Html _ => []
  end.

(** The HTML tokenizer reads [<] as the start of a tag, a comment or a
    declaration only when a letter, [/], [!] or [?] follows it; any other
    [<] is text. *)
Definition tag_open (c : ascii) : bool :=
  is_letter c || Ascii.eqb c "/"%char || Ascii.eqb c "!"%char || Ascii.eqb c "?"%char.

Definition starts_tag (s : string) : bool :=
  match s with
  | String d _ => tag_open d
  | EmptyString => false
  end.

(** What a browser displays for markup without character references:
    the text outside tags. *)
Fixpoint html_text_aux (in_tag : bool) (s : string) : string :=
  match s with
  | EmptyString => EmptyString
  | String c rest =>
      if in_tag then html_text_aux (negb (Ascii.eqb c ">"%char)) rest
      else if Ascii.eqb c "<"%char && starts_tag rest then html_text_aux true rest
      else String c (html_text_aux false rest)
  end.

Fixpoint text_content (n : Node) : string :=
  match n with
  | Elem _ _ _ ch => fold_right (fun x acc => text_content x ++ acc) "" ch
  | Html s => html_text_aux false s
  end.

(** ** Properties *)

Module RenderFacts.
Import Geometry.Connector Geometry.Pass.

Lemma append_empty_r (s : string) : (s ++ "")%string = s.
Proof. induction s as [|c s IH]; simpl; [reflexivity | now rewrite IH]. Qed.

(** The entry of a card matches [.timeline-item] and nothing inside it
    does. *)
Lemma qsa_self_card (card : Card) : qsa_self "timeline-item" (render_card card) = [render_card card].
Proof. unfold render_card; simpl. destruct (date card =? ""); reflexivity. Qed.

(** The text of the entry's [time] element. *)
Lemma time_text (card : Card) :
  map text_content (children_tagged "time" (render_card card)) = [html_text_aux false (date card)].
Proof.
  unfold render_card; simpl. destruct (date card =? "") eqn:E.
  - apply String.eqb_eq in E. now rewrite E.
  - simpl. now rewrite append_empty_r.
Qed.

Lemma fill_list (cs : list Card) (ns : Ns) (t : string) (a : list (string * string)) (ch : list Node) :
  fold_left (fun list card => appendChild (render_card card) list) cs (Elem ns t a ch)
  = Elem ns t a (ch ++ map render_card cs).
Proof.
  revert ch; induction cs as [|c cs IH]; intros ch; simpl; [now rewrite app_nil_r|].
  rewrite IH, <- app_assoc. reflexivity.
Qed.

(** The items [drawConnectors] and the observer see are the entries of
    the cards, in order. *)
Lemma qsa_items (ns : Ns) (t : string) (a : list (string * string)) (ch : list Node)
    (section : TimelineSection) :
  qsa "timeline-item" (renderTimeline_dom (Elem ns t a ch) section) = map render_card (cards section).
Proof.
  unfold renderTimeline_dom.
  change (createEl "ul" [("class", "timeline-list")] None)
    with (Elem HTML "ul" [("class", "timeline-list")] []).
  rewrite fill_list. simpl. rewrite flat_map_concat_map, map_map.
  erewrite map_ext; [|intros c; apply qsa_self_card].
  induction (cards section) as [|c cs IH]; simpl; [reflexivity | now rewrite IH].
Qed.

(** Each entry holds one [.timeline-content] box, the drag target of
    line 139. *)
Lemma qsa_contents_length (ns : Ns) (t : string) (a : list (string * string)) (ch : list Node)
    (section : TimelineSection) :
  List.length (qsa "timeline-content" (renderTimeline_dom (Elem ns t a ch) section))
  = List.length (cards section).
Proof.
  unfold renderTimeline_dom.
  change (createEl "ul" [("class", "timeline-list")] None)
    with (Elem HTML "ul" [("class", "timeline-list")] []).
  rewrite fill_list. simpl. rewrite ?app_nil_r.
  induction (cards section) as [|c cs IH]; [reflexivity|].
  cbn [map flat_map]. rewrite length_app, IH. unfold render_card; simpl.
  destruct (date c =? ""); reflexivity.
Qed.

(** C12: rendering [N] cards into a container element yields exactly [N]
    [li.timeline-item] entries in dataset order; each has a dot and a
    content box for [querySelector] to find, and its [time] element shows
    the card's date. *)
Theorem render_items (ns : Ns) (t : string) (a : list (string * string)) (ch : list Node)
    (section : TimelineSection) :
  let items := qsa "timeline-item" (renderTimeline_dom (Elem ns t a ch) section) in
  List.length items = List.length (cards section)
  /\ Forall (fun it => query "timeline-dot" it <> None /\ query "timeline-content" it <> None) items
  /\ map (fun it => map text_content (children_tagged "time" it)) items
     = map (fun card => [html_text_aux false (date card)]) (cards section).
Proof.
  cbv zeta. rewrite qsa_items. split; [apply length_map|]. split.
  - apply Forall_forall. intros it Hin. apply in_map_iff in Hin as (c & <- & _).
    unfold query; simpl; destruct (date c =? ""); simpl; split; discriminate.
  - rewrite map_map. apply map_ext, time_text.
Qed.

(** The dot and the content of a card's entry are both found. *)
Lemma card_view_complete (box : Node -> Rect) (c : Card) :
  exists pr, complete (mkItemView (option_map box (query "timeline-dot" (render_card c)))
                                  (option_map box (query "timeline-content" (render_card c))))
             = Some pr.
Proof. unfold query, complete; simpl. destruct (date c =? ""); simpl; eauto. Qed.

(** C26: after rendering, a frame pass over what [querySelector] finds in
    each entry, whatever the boxes the browser lays out, draws exactly one
    connector per card. *)
Theorem render_then_pass (ns : Ns) (t : string) (a : list (string * string)) (ch : list Node)
    (section : TimelineSection) (box : Node -> Rect) (svgRect : Rect) (svg : list SvgPath) :
  let items := qsa "timeline-item" (renderTimeline_dom (Elem ns t a ch) section) in
  let views := map (fun it => mkItemView (option_map box (query "timeline-dot" it))
                                         (option_map box (query "timeline-content" it))) items in
  List.length (draw_pass svg svgRect views) = List.length (cards section).
Proof.
  cbv zeta. rewrite PassFacts.draw_pass_connectors, qsa_items. unfold connectors.
  rewrite length_map, map_map. induction (cards section) as [|c cs IH]; [reflexivity|].
  cbn [map flat_map]. destruct (card_view_complete box c) as [pr ->].
  cbn [app List.length]. f_equal. exact IH.
Qed.

(** C27: rendering again replaces the content instead of duplicating it:
    [container.innerHTML = ''] makes the result independent of what the
    container held. *)
Theorem render_idempotent (c : Node) (section : TimelineSection) :
  renderTimeline_dom (renderTimeline_dom c section) section = renderTimeline_dom c section.
Proof. destruct c; reflexivity. Qed.

(** on [DOMContentLoaded] the renderer does nothing when
    [#credentials-root] is absent, and otherwise renders the six cards of
    [CREDENTIALS_SECTION] in order with their dates. *)
Theorem mount_credentials :
  mount None = None
  /\ option_map (fun root => map (fun it => map text_content (children_tagged "time" it))
                                 (qsa "timeline-item" root))
                (mount (Some sample_root))
     = Some [["2020"]; ["2021"]; ["2022"]; ["2023"]; ["2024"]; ["2025"]].
Proof. split; reflexivity. Qed.

End RenderFacts.
