(* ===== verification/Scheduler.v ===== *)
(** * The redraw scheduler ([rafState] and [drawConnectors])

    [src/credentials.js], lines 42-47: [drawConnectors] returns at once
    when [rafState.scheduled] is set; otherwise it sets the flag and
    registers one [requestAnimationFrame] callback, which clears the flag
    (line 47) and then runs the geometry pass.

    - [Sched] is the flag together with the host's queue of animation
      frame callbacks.  The program registers no other frame callback, so
      a queued callback is the one of line 46 ([DrawFrame]).
    - [drawConnectors] is lines 43-46; [frame] is the host's frame step:
      it takes the callbacks queued so far, empties the queue and runs
      them in order ([run_callback] is line 47 followed by the pass).
    - The pass is a section variable [pass] on an arbitrary world [W]:
      [Page] instantiates it with [Geometry.Pass.draw_pass].
    - [RedrawSpec] is the abstract contract of a redraw scheduler (a
      pending bit; a frame runs the pass once iff a redraw is pending) and
      [refines] the simulation relation: every operation of the
      implementation is matched by the specification's. *)

From Stdlib Require Import List Bool Lia.
From S2P Require Import Prelude.
Import ListNotations.

(** A callback waiting in the animation frame queue. *)
Inductive RafCb := DrawFrame.

(** [rafState] and the frame queue. *)
Record Sched := mkSched { scheduled : bool; raf_queue : list RafCb }.

(** [const rafState = { scheduled: false }], before any frame request. *)
Definition sched_init : Sched := mkSched false [].

(** Lines 43-46. *)
Definition drawConnectors (s : Sched) : Sched :=
  if scheduled s then s
  else mkSched true (raf_queue s ++ [DrawFrame]).

Section Frame.
Context {W : Type} (pass : W -> W).

(** Lines 46-47: the callback clears the flag, then runs the pass. *)
Definition run_callback (sw : Sched * W) (cb : RafCb) : Sched * W :=
  match cb with
  | DrawFrame =>
      let '(s, w) := sw in (mkSched false (raf_queue s), pass w)
  end.

(** One animation frame: the callbacks queued before the frame run in
    order; a callback registered while they run waits for the next
    frame. *)
Definition frame (sw : Sched * W) : Sched * W :=
  let '(s, w) := sw in
  fold_left run_callback (raf_queue s) (mkSched (scheduled s) [], w).

End Frame.

(** The scheduler's invariant: one queued callback exactly when the flag
    is set. *)
Definition sched_wf (s : Sched) : Prop :=
  raf_queue s = if scheduled s then [DrawFrame] else [].

(** ** Abstract contract *)

Module RedrawSpec.

(** A redraw is pending or not. *)
Definition state := bool.

Definition request (pending : state) : state := true.

Definition frame {W} (pass : W -> W) (sw : state * W) : state * W :=
  let '(pending, w) := sw in
  if pending then (false, pass w) else (false, w).

(** The implementation state [s] implements the abstract state [p]. *)
Definition refines (s : Sched) (p : state) : Prop := sched_wf s /\ scheduled s = p.

End RedrawSpec.

(** ** Properties *)

Module SchedFacts.

Ltac sched_cases s :=
  let Hq := fresh "Hq" in
  destruct s as [[|] q]; unfold sched_wf; simpl; intros Hq; subst q.

Lemma sched_init_wf : sched_wf sched_init.
Proof. reflexivity. Qed.

Lemma drawConnectors_wf (s : Sched) : sched_wf s -> sched_wf (drawConnectors s).
Proof. sched_cases s; reflexivity. Qed.

Lemma drawConnectors_scheduled (s : Sched) : scheduled (drawConnectors s) = true.
Proof. destruct s as [[|] q]; reflexivity. Qed.

(** A second request while one is pending changes nothing. *)
Lemma drawConnectors_idem (s : Sched) :
  drawConnectors (drawConnectors s) = drawConnectors s.
Proof. destruct s as [[|] q]; reflexivity. Qed.

Lemma iter_drawConnectors (k : nat) (s : Sched) :
  Nat.iter (S k) drawConnectors s = drawConnectors s.
Proof.
  induction k as [|k IH]; [reflexivity|].
  change (drawConnectors (Nat.iter (S k) drawConnectors s) = drawConnectors s).
  now rewrite IH, drawConnectors_idem.
Qed.

#[export] Hint Resolve sched_init_wf : tl.

Section WithPass.
Context {W : Type} (pass : W -> W).

Lemma frame_request (s : Sched) (w : W) :
  sched_wf s -> frame pass (drawConnectors s, w) = (sched_init, pass w).
Proof. sched_cases s; reflexivity. Qed.


(** a frame with no pending request runs no pass and changes nothing. *)
Theorem frame_idle (s : Sched) (w : W) :
  sched_wf s -> scheduled s = false -> frame pass (s, w) = (s, w).
Proof. sched_cases s; [discriminate | reflexivity]. Qed.

(** C2: any number [k >= 1] of requests issued between two frames result
    in exactly one pass at the next frame. *)
Theorem frame_coalesces (k : nat) (s : Sched) (w : W) :
  sched_wf s -> (1 <= k)%nat ->
  frame pass (Nat.iter k drawConnectors s, w) = (sched_init, pass w).
Proof.
  intros Hwf Hk. destruct k as [|k]; [lia|].
  rewrite iter_drawConnectors. now apply frame_request.
Qed.

Lemma frame_wf (s : Sched) (w : W) : sched_wf s -> sched_wf (fst (frame pass (s, w))).
Proof. sched_cases s; reflexivity. Qed.

(** C21: the implementation refines the abstract contract: related states
    stay related by a request and by a frame, and a frame changes the
    world exactly as the contract's frame does. *)
Theorem sched_refines_spec (s : Sched) (p : RedrawSpec.state) (w : W) :
  RedrawSpec.refines s p ->
  RedrawSpec.refines (drawConnectors s) (RedrawSpec.request p)
  /\ RedrawSpec.refines (fst (frame pass (s, w))) (fst (RedrawSpec.frame pass (p, w)))
  /\ snd (frame pass (s, w)) = snd (RedrawSpec.frame pass (p, w)).
Proof.
  intros [Hwf <-]. unfold RedrawSpec.refines.
  revert Hwf; sched_cases s; repeat split.
Qed.

End WithPass.
End SchedFacts.

Module SchedWitness.
Import SchedFacts.

(** Counting passes: with [pass := S], five requests in one frame
    interval give one pass. *)
Lemma frame_coalesces_witness :
  frame S (Nat.iter 5 drawConnectors sched_init, 0%nat) = (sched_init, 1%nat).
Proof. apply frame_coalesces; [reflexivity | lia]. Defined.


Lemma sched_refines_spec_witness :
  RedrawSpec.refines (drawConnectors sched_init) (RedrawSpec.request false)
  /\ RedrawSpec.refines (fst (frame S (sched_init, 0%nat)))
       (fst (RedrawSpec.frame S (false, 0%nat)))
  /\ snd (frame S (sched_init, 0%nat)) = snd (RedrawSpec.frame S (false, 0%nat)).
Proof. apply sched_refines_spec. split; reflexivity. Defined.

End SchedWitness.
