(* ===== verification/Drag.v ===== *)
(** * Drag with clamp and spring-back ([enableCardDrag])

    [src/credentials.js], lines 136-168: every [.timeline-content] element
    gets its own closure variable [pos] and three interact.js listeners.
    [move] adds the pointer delta to [pos], rescales [pos] onto the circle
    of radius [R = 120] when [Math.hypot(pos.x, pos.y) > R], writes the
    CSS translation and calls [onUpdate] (the redraw request); [end]
    cancels the element's anime.js animations, starts a 900 ms elastic
    animation of the translation back to 0, resets [pos] and schedules
    [onUpdate] after 920 ms.

    - [Hypot] is the interface through which the model uses
      [Math.hypot]: a nonnegative, positively homogeneous function.  The
      Euclidean norm is the intended instance; it is not a rational
      function, so the theorems are proved for every instance, and
      [hypot_max] is a rational instance used by the witnesses.
    - [DragItem] is the state the listeners of one element touch: [pos],
      [style.willChange], [style.transform] (the translation written by
      [move], [None] before any move) and the element's running anime.js
      animations.  The listeners return the new state and the redraw
      effects they request ([DragEffect]); [Page] runs the effects.
    - [DragSpec] is the per-card state machine of the design
      (Idle, Dragging, SnappingBack) and [drag_abs] the abstraction of a
      concrete state into it. *)

From Stdlib Require Import QArith Qabs Qminmax Lqa List String Morphisms.
From S2P Require Import Prelude.
Import ListNotations.
Open Scope Q_scope.

(** ** The [Math.hypot] interface *)

Class Hypot (hypot : Q -> Q -> Q) : Prop := {
  hypot_proper :: Proper (Qeq ==> Qeq ==> Qeq) hypot;
  hypot_nonneg : forall x y, 0 <= hypot x y;
  hypot_scale : forall k x y, 0 <= k -> hypot (k * x) (k * y) == k * hypot x y
}.

(** The maximum norm, a rational instance. *)
Definition hypot_max (x y : Q) : Q := Qmax (Qabs x) (Qabs y).

(** ** The state of one draggable element *)

(** An anime.js animation of the element's translation back to [(0,0)]:
    its start time and duration in milliseconds. *)
Record Anim := mkAnim { anim_start : Q; anim_duration : Q }.

Record DragItem := mkDragItem {
  pos : Q * Q;
  will_change : option string;
  transform : option (Q * Q);
  anims : list Anim
}.

(** The listeners' calls of [onUpdate]: at once, or through
    [setTimeout(onUpdate, delay)]. *)
Inductive DragEffect :=
  | RequestRedraw
  | ScheduleRedraw (delay : Q).

(** Line 141: [let pos = { x:0, y:0 }]; the element has no inline
    transform and no animation yet. *)
Definition drag_init : DragItem := mkDragItem (0, 0) None None [].

(** Line 138. *)
Definition R : Q := 120.

(** The constants of lines 160 and 163. *)
Definition SNAP_DURATION : Q := 900.
Definition SETTLE_DELAY : Q := 920.

Section Listeners.
Context (hypot : Q -> Q -> Q).

(** Lines 144-146. *)
Definition drag_start (it : DragItem) : DragItem :=
  mkDragItem (pos it) (Some "transform"%string) (transform it) (anims it).

(** Lines 147-156. *)
Definition drag_move (dx dy : Q) (it : DragItem) : DragItem * list DragEffect :=
  let x := fst (pos it) + dx in
  let y := snd (pos it) + dy in
  let d := hypot x y in
  let p := if (R <? d)%tl then (x / d * R, y / d * R) else (x, y) in
  (mkDragItem p (will_change it) (Some p) (anims it), [RequestRedraw]).

(** anime.js's [anime.remove(item)]: every running animation of the
    element is dropped. *)
Definition anime_remove (it : DragItem) : DragItem :=
  mkDragItem (pos it) (will_change it) (transform it) [].

(** anime.js's [anime({targets: item, ...})] at time [now]: one more
    running animation of the element. *)
Definition anime_start (now duration : Q) (it : DragItem) : DragItem :=
  mkDragItem (pos it) (will_change it) (transform it) (anims it ++ [mkAnim now duration]).

(** Lines 157-164, at time [now]. *)
Definition drag_end (now : Q) (it : DragItem) : DragItem * list DragEffect :=
  let it1 := anime_remove it in
  let it2 := anime_start now SNAP_DURATION it1 in
  (mkDragItem (0, 0) (will_change it2) (transform it2) (anims it2),
   [ScheduleRedraw SETTLE_DELAY]).

End Listeners.

(** anime.js at time [now]: an animation whose duration has elapsed has
    written its final value (translation [(0,0)]) and is no longer
    running. *)
Definition anim_tick (now : Q) (it : DragItem) : DragItem :=
  let done_ := existsb (fun a => Qle_bool (anim_start a + anim_duration a) now) (anims it) in
  mkDragItem (pos it) (will_change it)
    (if done_ then Some (0, 0) else transform it)
    (filter (fun a => negb (Qle_bool (anim_start a + anim_duration a) now)) (anims it)).

(** ** The design's per-card state machine *)

Module DragSpec.

(** [SnappingBack since]: the spring-back started at time [since]. *)
Inductive phase := Idle | Dragging | SnappingBack (since : Q).

(** What happens to one card: interact.js's three callbacks, and time
    passing (anime.js's frame loop). *)
Inductive input :=
  | EvStart
  | EvMove (dx dy : Q)
  | EvEnd (now : Q)
  | EvTick (now : Q).

(** The transitions the design allows: Idle -start-> Dragging -end->
    SnappingBack -animation complete-> Idle; moves only while dragging. *)
Inductive step : phase -> input -> phase -> Prop :=
  | st_start : step Idle EvStart Dragging
  | st_move : forall dx dy, step Dragging (EvMove dx dy) Dragging
  | st_end : forall now, step Dragging (EvEnd now) (SnappingBack now)
  | st_settle : forall since now,
      since + SNAP_DURATION <= now -> step (SnappingBack since) (EvTick now) Idle
  | st_wait : forall since now,
      now < since + SNAP_DURATION -> step (SnappingBack since) (EvTick now) (SnappingBack since)
  | st_idle_tick : forall now, step Idle (EvTick now) Idle
  | st_drag_tick : forall now, step Dragging (EvTick now) Dragging.

(** Runs of the design's state machine. *)
Inductive run : phase -> list input -> phase -> Prop :=
  | run_nil : forall ph, run ph [] ph
  | run_cons : forall ph ev ph' evs ph'',
      step ph ev ph' -> run ph' evs ph'' -> run ph (ev :: evs) ph''.

End DragSpec.

Section Concrete.
Context (hypot : Q -> Q -> Q).

(** The element's state after one event, as the code and the two
    libraries update it. *)
Definition drag_step (ev : DragSpec.input) (it : DragItem) : DragItem :=
  match ev with
  | DragSpec.EvStart => drag_start it
  | DragSpec.EvMove dx dy => fst (drag_move hypot dx dy it)
  | DragSpec.EvEnd now => fst (drag_end now it)
  | DragSpec.EvTick now => anim_tick now it
  end.

(** What each phase of the design requires of the element. *)
Definition drag_inv (ph : DragSpec.phase) (it : DragItem) : Prop :=
  match ph with
  | DragSpec.Idle =>
      pos it = (0, 0) /\ anims it = [] /\ (transform it = None \/ transform it = Some (0, 0))
  | DragSpec.Dragging =>
      hypot (fst (pos it)) (snd (pos it)) <= R /\ anims it = []
      /\ (transform it = None \/ transform it = Some (pos it))
  | DragSpec.SnappingBack since =>
      pos it = (0, 0) /\ anims it = [mkAnim since SNAP_DURATION]
  end.

End Concrete.

(** ** The maximum norm satisfies the interface *)

#[export] Instance hypot_max_Hypot : Hypot hypot_max.
Proof.
  split.
  - intros x x' Hx y y' Hy. unfold hypot_max. now rewrite Hx, Hy.
  - intros x y. unfold hypot_max.
    destruct (Q.max_spec_le (Qabs x) (Qabs y)) as [[_ ->] | [_ ->]]; apply Qabs_nonneg.
  - intros k x y Hk. unfold hypot_max. rewrite !Qabs_Qmult, (Qabs_pos k Hk).
    pose proof (Qabs_nonneg x). pose proof (Qabs_nonneg y).
    destruct (Q.max_spec_le (k * Qabs x) (k * Qabs y)) as [[H1 ->] | [H1 ->]];
    destruct (Q.max_spec_le (Qabs x) (Qabs y)) as [[H2 ->] | [H2 ->]];
    try reflexivity; nra.
Qed.

(** ** Properties of the listeners *)

Module DragFacts.

Section WithHypot.
Context (hypot : Q -> Q -> Q) `{!Hypot hypot}.

Lemma hypot_zero : hypot 0 0 == 0.
Proof.
  pose proof (hypot_scale 0 0 0 (Qle_refl 0)) as H.
  rewrite !Qmult_0_l in H. exact H.
Qed.

(** The rescaled offset lies on the circle. *)
Lemma rescale_on_circle (x y : Q) :
  R < hypot x y -> hypot (x / hypot x y * R) (y / hypot x y * R) == R.
Proof.
  intros HR. set (d := hypot x y) in *.
  assert (Hd : ~ d == 0) by (unfold R in HR; intro E; rewrite E in HR; discriminate).
  assert (Hx : x / d * R == (R / d) * x) by (field; exact Hd).
  assert (Hy : y / d * R == (R / d) * y) by (field; exact Hd).
  rewrite Hx, Hy, hypot_scale.
  - subst d. field. exact Hd.
  - apply Qle_shift_div_l; [unfold R in HR; lra | unfold R; lra].
Qed.

Lemma drag_move_pos (dx dy : Q) (it : DragItem) :
  let x := fst (pos it) + dx in
  let y := snd (pos it) + dy in
  pos (fst (drag_move hypot dx dy it))
  = if (R <? hypot x y)%tl then (x / hypot x y * R, y / hypot x y * R) else (x, y).
Proof. reflexivity. Qed.

Lemma drag_move_within (dx dy : Q) (it : DragItem) :
  hypot (fst (pos (fst (drag_move hypot dx dy it)))) (snd (pos (fst (drag_move hypot dx dy it))))
  <= R.
Proof.
  rewrite drag_move_pos. qcases; simpl.
  - rewrite rescale_on_circle by assumption. apply Qle_refl.
  - assumption.
Qed.

(** C5: after every [move] the card's offset lies within the circle of
    radius [R = 120]. *)
Theorem drag_move_clamps (dx dy : Q) (it : DragItem) :
  let p := pos (fst (drag_move hypot dx dy it)) in
  hypot (fst p) (snd p) <= R.
Proof. apply drag_move_within. Qed.

(** C20: [move] keeps an offset inside the circle as it is, and rescales an
    offset outside it onto the circle, in the same direction (a factor
    strictly between 0 and 1). *)
Theorem drag_move_rescale (dx dy : Q) (it : DragItem) :
  let x := fst (pos it) + dx in
  let y := snd (pos it) + dy in
  let p := pos (fst (drag_move hypot dx dy it)) in
  (hypot x y <= R -> p = (x, y))
  /\ (R < hypot x y ->
      hypot (fst p) (snd p) == R
      /\ exists k, 0 < k < 1 /\ fst p == k * x /\ snd p == k * y).
Proof.
  cbv zeta. rewrite drag_move_pos.
  set (x := fst (pos it) + dx). set (y := snd (pos it) + dy).
  split; intros H; qcases; simpl; try (exfalso; lra); try reflexivity.
  split; [now apply rescale_on_circle|].
  assert (Hd : 0 < hypot x y) by (unfold R in H; lra).
  exists (R / hypot x y). repeat split.
  - apply Qlt_shift_div_l; [exact Hd | unfold R; lra].
  - apply Qlt_shift_div_r; [exact Hd | lra].
  - field. intro E. rewrite E in Hd. discriminate.
  - field. intro E. rewrite E in Hd. discriminate.
Qed.

(** C15: [end] leaves exactly one running animation on the card, the
    900 ms spring-back it starts, whatever animations were running before
    (no stacking), resets the offset, and schedules the settling redraw
    920 ms later, after that animation has finished. *)
Theorem drag_end_single_anim (now : Q) (it : DragItem) :
  pos (fst (drag_end now it)) = (0, 0)
  /\ anims (fst (drag_end now it)) = [mkAnim now SNAP_DURATION]
  /\ snd (drag_end now it) = [ScheduleRedraw SETTLE_DELAY]
  /\ now + SNAP_DURATION < now + SETTLE_DELAY.
Proof.
  repeat split. unfold SNAP_DURATION, SETTLE_DELAY. lra.
Qed.

Lemma anim_tick_settled (since now : Q) (it : DragItem) :
  anims it = [mkAnim since SNAP_DURATION] -> since + SNAP_DURATION <= now ->
  anims (anim_tick now it) = [] /\ transform (anim_tick now it) = Some (0, 0)
  /\ pos (anim_tick now it) = pos it.
Proof.
  intros Ha Hle. unfold anim_tick; simpl; rewrite Ha; simpl.
  destruct (Qle_bool_spec (since + SNAP_DURATION) now); [|contradiction].
  repeat split.
Qed.

Lemma anim_tick_running (since now : Q) (it : DragItem) :
  anims it = [mkAnim since SNAP_DURATION] -> now < since + SNAP_DURATION ->
  anim_tick now it = it.
Proof.
  intros Ha Hlt. destruct it as [p w t a]; simpl in Ha; subst a.
  unfold anim_tick; simpl.
  destruct (Qle_bool_spec (since + SNAP_DURATION) now); [lra|reflexivity].
Qed.

Lemma anim_tick_none (now : Q) (it : DragItem) : anims it = [] -> anim_tick now it = it.
Proof. destruct it as [p w t a]; simpl; intros ->; reflexivity. Qed.

(** One event of the design's state machine is matched by the code. *)
Lemma drag_step_refines (ph ph' : DragSpec.phase) (ev : DragSpec.input) (it : DragItem) :
  DragSpec.step ph ev ph' -> drag_inv hypot ph it -> drag_inv hypot ph' (drag_step hypot ev it).
Proof.
  intros Hst; destruct Hst; cbn [drag_step drag_inv].
  - intros (Hp & Ha & Ht). simpl. rewrite Hp. simpl. rewrite hypot_zero.
    repeat split; [unfold R; lra | exact Ha | destruct Ht as [-> | ->]; auto].
  - intros (_ & Ha & _). repeat split; [apply drag_move_within | exact Ha | now right].
  - intros _. repeat split.
  - intros (Hp & Ha). destruct (anim_tick_settled since now it Ha H) as (A & T & P).
    rewrite P, Hp. auto.
  - intros (Hp & Ha). rewrite (anim_tick_running since now it Ha H). auto.
  - intros (Hp & Ha & Ht). rewrite anim_tick_none by exact Ha. auto.
  - intros (Hn & Ha & Ht). rewrite anim_tick_none by exact Ha. auto.
Qed.

End WithHypot.

Section Runs.
Context (hypot : Q -> Q -> Q) `{!Hypot hypot}.

(** C14: the code refines the design's drag state machine: along every
    event sequence the design allows from a fresh card, the element's
    state satisfies what the reached phase requires (offset within the
    circle while dragging, offset reset and exactly one spring-back while
    snapping back, offset zero and no animation when idle). *)
Theorem drag_run_refines (evs : list DragSpec.input) (ph : DragSpec.phase) :
  DragSpec.run DragSpec.Idle evs ph ->
  drag_inv hypot ph (fold_left (fun it ev => drag_step hypot ev it) evs drag_init).
Proof.
  intros Hrun.
  assert (Hinit : drag_inv hypot DragSpec.Idle drag_init) by (simpl; auto).
  revert Hinit. generalize drag_init.
  induction Hrun as [|ph0 ev ph1 evs ph2 Hst Hrun IH]; intros it Hit; simpl; [exact Hit|].
  apply IH. eapply drag_step_refines; eauto.
Qed.

(** C34: interact.js calls [start] whatever the card is doing, and [start]
    does not cancel a running spring-back: a drag begun during the
    spring-back has [move] write the translation while the 900 ms
    animation still animates it. *)
Theorem drag_start_during_snapback (since dx dy : Q) (it : DragItem) :
  drag_inv hypot (DragSpec.SnappingBack since) it ->
  let it' := fst (drag_move hypot dx dy (drag_start it)) in
  anims it' = [mkAnim since SNAP_DURATION] /\ transform it' = Some (pos it').
Proof. intros [_ Ha]. simpl. rewrite Ha. auto. Qed.

End Runs.
End DragFacts.

(** ** Witnesses, with the maximum norm for [Math.hypot] *)

Module DragWitness.
Import DragFacts.

Lemma drag_move_clamps_witness :
  let p := pos (fst (drag_move hypot_max 500 0 drag_init)) in
  hypot_max (fst p) (snd p) <= R.
Proof. apply (drag_move_clamps hypot_max). Defined.

(** An accumulated offset of [(300, 400)] is rescaled onto the circle. *)
Lemma drag_move_rescale_witness :
  let p := pos (fst (drag_move hypot_max 300 400 drag_init)) in
  hypot_max (fst p) (snd p) == R
  /\ exists k, 0 < k < 1 /\ fst p == k * (0 + 300) /\ snd p == k * (0 + 400).
Proof.
  apply (proj2 (drag_move_rescale hypot_max 300 400 drag_init)).
  vm_compute. reflexivity.
Defined.

Lemma drag_run_refines_witness :
  drag_inv hypot_max DragSpec.Idle
    (fold_left (fun it ev => drag_step hypot_max ev it)
       [DragSpec.EvStart; DragSpec.EvMove 500 0; DragSpec.EvEnd 10; DragSpec.EvTick 2000]
       drag_init).
Proof.
  apply (drag_run_refines hypot_max).
  eapply DragSpec.run_cons; [apply DragSpec.st_start|].
  eapply DragSpec.run_cons; [apply DragSpec.st_move|].
  eapply DragSpec.run_cons; [apply DragSpec.st_end|].
  eapply DragSpec.run_cons; [apply DragSpec.st_settle; vm_compute; discriminate|].
  apply DragSpec.run_nil.
Defined.

Lemma drag_start_during_snapback_witness :
  let it' := fst (drag_move hypot_max 5 5 (drag_start (fst (drag_end 0 drag_init)))) in
  anims it' = [mkAnim 0 SNAP_DURATION] /\ transform it' = Some (pos it').
Proof.
  apply (drag_start_during_snapback hypot_max 0 5 5). split; reflexivity.
Defined.

End DragWitness.
