(* ===== verification/Sparkle.v ===== *)
(** * The particle burst ([emitDotSparkle])

    [src/credentials.js], lines 111-134: unless the user prefers reduced
    motion, the function appends a [div.sparkle-burst] to the dot, appends
    8 [div.spark] children, starts one Web Animation per spark (scale 0.2
    to 0.8, opacity 1 to 0, towards a target at angle [2*pi*i/8], radius
    [18 + random*8], with a jitter of [random*6 - 3] on each axis, lasting
    [700 + random*300] ms), and removes the burst after 1200 ms.

    - [Math.random] is the oracle [rand : nat -> Q] read at increasing
      positions; [k] is the number of values drawn so far.  The source
      draws four values per spark, in the order radius, x jitter, y
      jitter, duration (lines 121, 126, 127, 131).
    - The angle is kept as the fraction of a full turn [i/8]; the target
      [(cos(angle)*r + jx, sin(angle)*r + jy)] is kept as its parameters
      (cosine and sine are not rational functions).
    - [PREFERS_REDUCED] (line 6) is read once at load time; it is the
      parameter [reduced].  The removal timer is returned as an effect for
      [Page] to schedule. *)

From Stdlib Require Import QArith Qabs Lqa List Lia.
From S2P Require Import Prelude.
Import ListNotations.
Open Scope Q_scope.

(** One [div.spark] and its animation. *)
Record Spark := mkSpark {
  turn : Q;       (** [i / count], the angle as a fraction of a turn *)
  radius : Q;     (** [r] *)
  jitter_x : Q;   (** [Math.random()*6 - 3] of [tx] *)
  jitter_y : Q;   (** [Math.random()*6 - 3] of [ty] *)
  duration : Q    (** [700 + Math.random()*300] *)
}.

(** Line 116. *)
Definition count : nat := 8.

(** Line 133: the burst is removed 1200 ms after it was created. *)
Definition CLEANUP_DELAY : Q := 1200.

Section Emit.
Variable rand : nat -> Q.

(** Lines 117-132: iterations [i], [i+1], ..., [i+n-1] of the [for] loop,
    drawing from position [k] of the random stream. *)
Fixpoint spawn (n i k : nat) : list Spark * nat :=
  match n with
  | O => ([], k)
  | S n' =>
      let r := 18 + rand k * 8 in
      let jx := rand (S k) * 6 - 3 in
      let jy := rand (S (S k)) * 6 - 3 in
      let dur := 700 + rand (S (S (S k))) * 300 in
      let '(rest, k') := spawn n' (S i) (k + 4) in
      (mkSpark (inject_Z (Z.of_nat i) / inject_Z (Z.of_nat count)) r jx jy dur :: rest, k')
  end.

(** Lines 111-134: [None] when reduced motion returns early, otherwise
    the sparks of the new burst; with the position of the stream after
    the call. *)
Definition emitDotSparkle (reduced : bool) (k : nat) : option (list Spark) * nat :=
  if reduced then (None, k)
  else let '(sparks, k') := spawn count 0 k in (Some sparks, k').

End Emit.

(** ** Properties *)

(** The ranges the animation parameters of a spark fall in. *)
Definition spark_ok (s : Spark) : Prop :=
  18 <= radius s < 26 /\ -3 <= jitter_x s < 3 /\ -3 <= jitter_y s < 3
  /\ 700 <= duration s < 1000.

Module SparkleFacts.

Section WithRand.
Variable rand : nat -> Q.

Lemma spawn_length (n i k : nat) : List.length (fst (spawn rand n i k)) = n.
Proof.
  revert i k; induction n as [|n IH]; intros i k; simpl; [reflexivity|].
  destruct (spawn rand n (S i) (k + 4)) as [rest k'] eqn:E; simpl.
  f_equal. specialize (IH (S i) (k + 4)%nat). now rewrite E in IH.
Qed.

(** The loop draws exactly four random values per spark. *)
Lemma spawn_draws (n i k : nat) : snd (spawn rand n i k) = (k + 4 * n)%nat.
Proof.
  revert i k; induction n as [|n IH]; intros i k; simpl; [lia|].
  destruct (spawn rand n (S i) (k + 4)) as [rest k'] eqn:E; simpl.
  specialize (IH (S i) (k + 4)%nat). rewrite E in IH. simpl in IH. lia.
Qed.

Hypothesis rand_range : forall n, 0 <= rand n < 1.

Lemma spawn_ok (n i k : nat) : Forall spark_ok (fst (spawn rand n i k)).
Proof.
  revert i k; induction n as [|n IH]; intros i k; simpl; [constructor|].
  destruct (spawn rand n (S i) (k + 4)) as [rest k'] eqn:E; simpl.
  constructor.
  - pose proof (rand_range k); pose proof (rand_range (S k));
    pose proof (rand_range (S (S k))); pose proof (rand_range (S (S (S k)))).
    unfold spark_ok; simpl; repeat split; lra.
  - specialize (IH (S i) (k + 4)%nat). now rewrite E in IH.
Qed.

(** C35: when reduced motion is off, a burst has exactly 8 sparks at the
    angles [i/8] of a full turn for [i = 0..7] in order, each with radius
    in [[18, 26)], jitter in [[-3, 3)] on both axes and duration in
    [[700, 1000)] ms, so every spark's animation ends before the burst is
    removed 1200 ms after its creation; the call draws 32 random values. *)
Theorem emit_burst_shape (k : nat) :
  exists sparks,
    emitDotSparkle rand false k = (Some sparks, (k + 32)%nat)
    /\ map turn sparks = [0 # 8; 1 # 8; 2 # 8; 3 # 8; 4 # 8; 5 # 8; 6 # 8; 7 # 8]
    /\ Forall spark_ok sparks
    /\ Forall (fun s => duration s < CLEANUP_DELAY) sparks.
Proof.
  unfold emitDotSparkle.
  pose proof (spawn_draws count 0 k) as Hd. pose proof (spawn_ok count 0 k) as Hok.
  destruct (spawn rand count 0 k) as [sparks k'] eqn:E. simpl in Hd, Hok.
  exists sparks. split; [now rewrite Hd|]. split.
  - change sparks with (fst (sparks, k')). rewrite <- E. reflexivity.
  - split; [exact Hok|].
    eapply Forall_impl; [|exact Hok]. intros s (_ & _ & _ & _ & Hs).
    unfold CLEANUP_DELAY. lra.
Qed.

End WithRand.
End SparkleFacts.

Module SparkleWitness.
Import SparkleFacts.

(** [Math.random] returning 1/2 every time. *)
Lemma emit_burst_shape_witness :
  exists sparks,
    emitDotSparkle (fun _ => 1 # 2) false 0 = (Some sparks, 32%nat)
    /\ map turn sparks = [0 # 8; 1 # 8; 2 # 8; 3 # 8; 4 # 8; 5 # 8; 6 # 8; 7 # 8]
    /\ Forall spark_ok sparks
    /\ Forall (fun s => duration s < CLEANUP_DELAY) sparks.
Proof.
  apply (emit_burst_shape (fun _ => 1 # 2)).
  intros _. split; vm_compute; [intro H; discriminate H | reflexivity].
Defined.

End SparkleWitness.
