(* ===== verification/Reveal.v ===== *)
(** * The reveal controller (the [IntersectionObserver] callback)

    [src/credentials.js], lines 86-97: every [li.timeline-item] is
    observed with threshold 0.12; for every entry of a callback whose
    [isIntersecting] is true, the callback adds the class [in-view] to the
    item and, when the item has a [.timeline-dot], calls [emitDotSparkle]
    on it.  Nothing unobserves an item.

    - [RevealItem] is what the callback touches of one item: its class
      list, whether [querySelector('.timeline-dot')] finds the dot, and
      the bursts appended to the dot (each with an identifier).
    - [RevealState] holds the items in display order (a list updated by
      index with stdpp's [<[i:=x]>]), the position of the random stream
      and the next burst identifier.
    - [io_callback] is lines 86-95; the removal timers of line 133 are
      returned as effects for [Page]. *)

From Stdlib Require Import QArith List String Bool Lia.
From stdpp Require Import base list.
From S2P Require Import Prelude Sparkle.
Import ListNotations.
Open Scope Q_scope.

(** A burst: a [div.sparkle-burst] appended to a dot. *)
Record Burst := mkBurst { burst_id : nat; burst_sparks : list Spark }.

Record RevealItem := mkRevealItem {
  classes : list string;
  has_dot : bool;
  bursts : list Burst
}.

Record RevealState := mkRevealState {
  ritems : list RevealItem;
  rng : nat;
  next_burst : nat
}.

(** [setTimeout(() => remove burst, 1200)] for the burst [b] of item [i]. *)
Inductive RevealEffect := RemoveBurstAfter (i b : nat) (delay : Q).

(** One entry of the callback: the observed item (by display position)
    and [isIntersecting]. *)
Record Entry := mkEntry { target : nat; isIntersecting : bool }.

(** [element.classList.add(c)]: a class already present is not added
    again. *)
Definition classList_add (c : string) (cls : list string) : list string :=
  if existsb (String.eqb c) cls then cls else cls ++ [c].

Definition has_class (c : string) (it : RevealItem) : bool :=
  existsb (String.eqb c) (classes it).

(** An item as [renderTimeline] creates it (line 28): class
    [timeline-item], a dot (line 29), no burst. *)
Definition reveal_item_init : RevealItem := mkRevealItem ["timeline-item"%string] true [].

Section Callback.
Variables (reduced : bool) (rand : nat -> Q).

(** Lines 87-93, one entry. *)
Definition io_entry (acc : RevealState * list RevealEffect) (en : Entry)
  : RevealState * list RevealEffect :=
  let '(st, effs) := acc in
  if isIntersecting en then
    match ritems st !! target en with
    | None => acc
    | Some it =>
        let it1 := mkRevealItem (classList_add "in-view" (classes it)) (has_dot it) (bursts it) in
        if has_dot it1 then
          match emitDotSparkle rand reduced (rng st) with
          | (Some sparks, k) =>
              let b := next_burst st in
              let it2 := mkRevealItem (classes it1) (has_dot it1)
                           (bursts it1 ++ [mkBurst b sparks]) in
              (mkRevealState (<[target en := it2]> (ritems st)) k (S b),
               effs ++ [RemoveBurstAfter (target en) b CLEANUP_DELAY])
          | (None, k) =>
              (mkRevealState (<[target en := it1]> (ritems st)) k (next_burst st), effs)
          end
        else (mkRevealState (<[target en := it1]> (ritems st)) (rng st) (next_burst st), effs)
    end
  else acc.

(** Lines 86-95: [entries.forEach(...)]. *)
Definition io_callback (st : RevealState) (entries : list Entry)
  : RevealState * list RevealEffect :=
  fold_left io_entry entries (st, []).

End Callback.

(** The cleanup timer of line 133: remove the burst [b] from the dot of
    item [i] if it is still there. *)
Definition remove_burst (i b : nat) (st : RevealState) : RevealState :=
  match ritems st !! i with
  | None => st
  | Some it =>
      mkRevealState
        (<[i := mkRevealItem (classes it) (has_dot it)
                  (List.filter (fun x => negb (Nat.eqb (burst_id x) b)) (bursts it))]> (ritems st))
        (rng st) (next_burst st)
  end.

(** [it'] is [it] possibly with more classes and more bursts. *)
Definition item_le (it it' : RevealItem) : Prop :=
  (forall c, has_class c it = true -> has_class c it' = true) /\ has_dot it' = has_dot it.

(** Three callbacks on item [i]: visible, then not visible, then visible
    again. *)
Definition visible_invisible_visible (rand : nat -> Q) (reduced : bool) (i : nat)
    (st : RevealState) : RevealState :=
  let st1 := fst (io_callback reduced rand st [mkEntry i true]) in
  let st2 := fst (io_callback reduced rand st1 [mkEntry i false]) in
  fst (io_callback reduced rand st2 [mkEntry i true]).

(** Three fresh items, nothing drawn from the random stream yet. *)
Definition fresh : RevealState := mkRevealState (repeat reveal_item_init 3) 0 0.

(** ** Properties *)

Module RevealFacts.

Lemma classList_add_mem (c d : string) (cls : list string) :
  existsb (String.eqb d) (classList_add c cls) = existsb (String.eqb d) cls || String.eqb d c.
Proof.
  unfold classList_add. destruct (existsb (String.eqb c) cls) eqn:E.
  - destruct (String.eqb_spec d c) as [->|]; [now rewrite E|now rewrite orb_false_r].
  - rewrite existsb_app. simpl. now rewrite orb_false_r.
Qed.

Lemma item_le_refl (it : RevealItem) : item_le it it.
Proof. split; auto. Qed.

Lemma item_le_trans (a b c : RevealItem) : item_le a b -> item_le b c -> item_le a c.
Proof. intros [H1 D1] [H2 D2]. split; [auto | congruence]. Qed.

Lemma item_le_add (it : RevealItem) (dot : bool) (bs : list Burst) :
  dot = has_dot it ->
  item_le it (mkRevealItem (classList_add "in-view" (classes it)) dot bs).
Proof.
  intros ->. split; [|reflexivity]. intros c H. unfold has_class in *; simpl.
  now rewrite classList_add_mem, H.
Qed.

#[local] Hint Resolve item_le_refl item_le_add : tl.

(** Updating one index of a list keeps a reflexive relation between old
    and new elements at every index when it holds at the updated one. *)
Lemma insert_rel {A} (P : A -> A -> Prop) (l : list A) (i j : nat) (it it' x : A) :
  (forall y, P y y) -> l !! i = Some it -> P it it' -> l !! j = Some x ->
  exists x', <[i := it']> l !! j = Some x' /\ P x x'.
Proof.
  intros Hrefl Hi Hle Hj. destruct (decide (i = j)) as [<-|Hne].
  - exists it'. rewrite list_lookup_insert_eq by (eapply lookup_lt_Some; eauto).
    rewrite Hi in Hj. injection Hj as <-. auto.
  - exists x. rewrite list_lookup_insert_ne by exact Hne. auto.
Qed.

Section WithRand.
Variables (reduced : bool) (rand : nat -> Q).

(** One entry only adds classes and bursts. *)
Lemma io_entry_mono (acc : RevealState * list RevealEffect) (en : Entry) (j : nat) (x : RevealItem) :
  ritems (fst acc) !! j = Some x ->
  exists x', ritems (fst (io_entry reduced rand acc en)) !! j = Some x' /\ item_le x x'.
Proof.
  destruct acc as [st effs]; simpl; intros Hj; unfold io_entry.
  destruct (isIntersecting en); [|eauto with tl].
  destruct (ritems st !! target en) as [it|] eqn:Ht; [|eauto with tl].
  repeat case_match; simpl;
    eapply insert_rel; eauto using item_le_refl; apply item_le_add; congruence.
Qed.

Lemma io_fold_mono (entries : list Entry) (acc : RevealState * list RevealEffect)
    (j : nat) (x : RevealItem) :
  ritems (fst acc) !! j = Some x ->
  exists x', ritems (fst (fold_left (io_entry reduced rand) entries acc)) !! j = Some x'
             /\ item_le x x'.
Proof.
  revert acc x; induction entries as [|en entries IH]; intros acc x Hj; simpl; [eauto with tl|].
  destruct (io_entry_mono acc en j x Hj) as (x1 & H1 & L1).
  destruct (IH _ _ H1) as (x2 & H2 & L2). eauto using item_le_trans.
Qed.

(** reveal is one-way: a callback never removes a class from an item
    (in particular [in-view]) nor its dot. *)
Theorem io_callback_monotone (st : RevealState) (entries : list Entry) (j : nat)
    (x : RevealItem) (c : string) :
  ritems st !! j = Some x -> has_class c x = true ->
  exists x', ritems (fst (io_callback reduced rand st entries)) !! j = Some x'
             /\ has_class c x' = true.
Proof.
  intros Hj Hc. destruct (io_fold_mono entries (st, []) j x Hj) as (x' & H & [L _]).
  eauto.
Qed.

(** What a visible entry does to the item it targets: [in-view] is
    added, and one burst is appended when the item has a dot and reduced
    motion is off. *)
Lemma io_entry_visible (st : RevealState) (effs : list RevealEffect) (i : nat) (it : RevealItem) :
  ritems st !! i = Some it ->
  exists it', ritems (fst (io_entry reduced rand (st, effs) (mkEntry i true))) !! i = Some it'
    /\ has_class "in-view" it' = true
    /\ length (bursts it') = (length (bursts it) + if has_dot it && negb reduced then 1 else 0)%nat.
Proof.
  intros Hi. pose proof (lookup_lt_Some _ _ _ Hi) as Hlt.
  unfold io_entry; simpl; rewrite Hi; simpl.
  assert (Hin : forall bs, has_class "in-view"
            (mkRevealItem (classList_add "in-view" (classes it)) (has_dot it) bs) = true).
  { intros bs. unfold has_class; cbn [classes].
    rewrite classList_add_mem, String.eqb_refl. apply orb_true_r. }
  destruct (has_dot it) eqn:Hd; simpl.
  - unfold emitDotSparkle. destruct reduced; simpl.
    + eexists; rewrite list_lookup_insert_eq by exact Hlt. split; [reflexivity|].
      split; [apply Hin | simpl; lia].
    + destruct (spawn rand count 0 (rng st)) as [sparks k]; simpl.
      eexists; rewrite list_lookup_insert_eq by exact Hlt. split; [reflexivity|].
      split; [apply Hin | simpl; rewrite length_app; simpl; lia].
  - eexists; rewrite list_lookup_insert_eq by exact Hlt. split; [reflexivity|].
    split; [apply Hin | simpl; lia].
Qed.

(** C19: every item named by a visible entry of a callback carries the
    class [in-view] after the callback. *)
Theorem io_callback_marks (st : RevealState) (entries : list Entry) (i : nat) :
  In (mkEntry i true) entries -> (i < length (ritems st))%nat ->
  exists x', ritems (fst (io_callback reduced rand st entries)) !! i = Some x'
             /\ has_class "in-view" x' = true.
Proof.
  intros Hin Hlt. apply in_split in Hin as (l1 & l2 & ->).
  unfold io_callback. rewrite fold_left_app. simpl.
  apply lookup_lt_is_Some_2 in Hlt as [x Hx].
  destruct (io_fold_mono l1 (st, []) i x Hx) as (x1 & H1 & _).
  destruct (fold_left (io_entry reduced rand) l1 (st, [])) as [st1 effs1] eqn:E.
  destruct (io_entry_visible st1 effs1 i x1 H1) as (x2 & H2 & C2 & _).
  destruct (io_fold_mono l2 _ i x2 H2) as (x3 & H3 & [L3 _]). eauto.
Qed.

End WithRand.

(** C6: the sparkle is not one-shot: an item with a dot that becomes
    visible, invisible and visible again gets two bursts, one per
    visible entry (the callback never unobserves the item). *)
Theorem reveal_retriggers (rand : nat -> Q) (st : RevealState) (i : nat) (it : RevealItem) :
  ritems st !! i = Some it -> has_dot it = true ->
  exists it', ritems (visible_invisible_visible rand false i st) !! i = Some it'
    /\ length (bursts it') = (length (bursts it) + 2)%nat.
Proof.
  intros Hi Hd. unfold visible_invisible_visible, io_callback; simpl.
  destruct (io_entry_visible false rand st [] i it Hi) as (it1 & H1 & _ & L1).
  destruct (io_entry_visible false rand (fst (io_entry false rand (st, []) (mkEntry i true)))
              [] i it1 H1) as (it2 & H2 & _ & L2).
  exists it2. split; [exact H2|].
  assert (Hd1 : has_dot it1 = true).
  { destruct (io_entry_mono false rand (st, []) (mkEntry i true) i it Hi) as (y & Hy & [_ D]).
    rewrite H1 in Hy. injection Hy as <-. congruence. }
  rewrite Hd in L1; rewrite Hd1 in L2; simpl in L1, L2. lia.
Qed.

(** The removal requests of a callback only accumulate. *)
Lemma io_entry_effs (reduced : bool) (rand : nat -> Q) (acc : RevealState * list RevealEffect)
    (en : Entry) (e : RevealEffect) :
  In e (snd acc) -> In e (snd (io_entry reduced rand acc en)).
Proof.
  destruct acc as [st effs]; unfold io_entry; simpl; intros H.
  repeat case_match; simpl; auto using in_or_app.
Qed.

Lemma io_fold_effs (reduced : bool) (rand : nat -> Q) (entries : list Entry)
    (acc : RevealState * list RevealEffect) (e : RevealEffect) :
  In e (snd acc) -> In e (snd (fold_left (io_entry reduced rand) entries acc)).
Proof.
  revert acc; induction entries as [|en entries IH]; intros acc H; simpl; [exact H|].
  apply IH, io_entry_effs, H.
Qed.

(** Every burst after an entry was there before, or the entry requested
    its removal timer. *)
Lemma io_entry_tracked (reduced : bool) (rand : nat -> Q) (acc : RevealState * list RevealEffect)
    (en : Entry) (j : nat) (x : RevealItem) (b : Burst) :
  ritems (fst (io_entry reduced rand acc en)) !! j = Some x -> In b (bursts x) ->
  (exists x0, ritems (fst acc) !! j = Some x0 /\ In b (bursts x0))
  \/ In (RemoveBurstAfter j (burst_id b) CLEANUP_DELAY) (snd (io_entry reduced rand acc en)).
Proof.
  destruct acc as [st effs]; unfold io_entry; cbn [fst snd]; intros Hx Hb.
  destruct (isIntersecting en); [|left; eauto].
  destruct (ritems st !! target en) as [it|] eqn:Ht; [|left; eauto].
  assert (Hsame : forall it', bursts it' = bursts it ->
            <[target en := it']> (ritems st) !! j = Some x -> exists x0, ritems st !! j = Some x0 /\ In b (bursts x0)).
  { intros it' Hbs Hj. destruct (decide (target en = j)) as [<-|Hne].
    - rewrite list_lookup_insert_eq in Hj by (eapply lookup_lt_Some; eauto).
      injection Hj as <-. exists it. split; [exact Ht | now rewrite <- Hbs].
    - rewrite list_lookup_insert_ne in Hj by exact Hne. eauto. }
  repeat case_match; cbn [fst snd ritems] in *; try (left; eapply Hsame; [|exact Hx]; reflexivity).
  destruct (decide (target en = j)) as [<-|Hne].
  - rewrite list_lookup_insert_eq in Hx by (eapply lookup_lt_Some; eauto).
    injection Hx as <-. cbn [bursts] in Hb. apply in_app_or in Hb as [Hb|[<-|[]]].
    + left. exists it. auto.
    + right. apply in_or_app. right. left. reflexivity.
  - rewrite list_lookup_insert_ne in Hx by exact Hne. left. eauto.
Qed.

Lemma io_fold_tracked (reduced : bool) (rand : nat -> Q) (entries : list Entry)
    (acc : RevealState * list RevealEffect) (j : nat) (x : RevealItem) (b : Burst) :
  ritems (fst (fold_left (io_entry reduced rand) entries acc)) !! j = Some x -> In b (bursts x) ->
  (exists x0, ritems (fst acc) !! j = Some x0 /\ In b (bursts x0))
  \/ In (RemoveBurstAfter j (burst_id b) CLEANUP_DELAY)
       (snd (fold_left (io_entry reduced rand) entries acc)).
Proof.
  revert acc x; induction entries as [|en entries IH]; intros acc x Hx Hb; simpl in *; [left; eauto|].
  destruct (IH _ _ Hx Hb) as [(x0 & H0 & B0)|H]; [|right; exact H].
  destruct (io_entry_tracked reduced rand acc en j x0 b H0 B0) as [H1|H1]; [left; exact H1|].
  right. apply io_fold_effs, H1.
Qed.

(** The cleanup timer removes every burst with its identifier. *)
Lemma remove_burst_gone (i b : nat) (st : RevealState) (x : RevealItem) (bu : Burst) :
  ritems (remove_burst i b st) !! i = Some x -> In bu (bursts x) -> burst_id bu <> b.
Proof.
  unfold remove_burst. destruct (ritems st !! i) as [it|] eqn:Hi.
  - cbn [ritems]. rewrite list_lookup_insert_eq by (eapply lookup_lt_Some; eauto).
    intros H; injection H as <-. cbn [bursts]. intros Hin. apply filter_In in Hin as [_ Hf].
    destruct (Nat.eqb_spec (burst_id bu) b); [discriminate | assumption].
  - intros H. congruence.
Qed.

(** The cleanup timer only removes bursts. *)
Lemma remove_burst_sub (i b : nat) (st : RevealState) (j : nat) (x : RevealItem) (bu : Burst) :
  ritems (remove_burst i b st) !! j = Some x -> In bu (bursts x) ->
  exists x0, ritems st !! j = Some x0 /\ In bu (bursts x0).
Proof.
  unfold remove_burst. destruct (ritems st !! i) as [it|] eqn:Hi; [|eauto].
  cbn [ritems]. destruct (decide (i = j)) as [<-|Hne].
  - rewrite list_lookup_insert_eq by (eapply lookup_lt_Some; eauto).
    intros H; injection H as <-. cbn [bursts]. intros Hin. apply filter_In in Hin as [Hin _]. eauto.
  - rewrite list_lookup_insert_ne by exact Hne. eauto.
Qed.

Lemma io_entry_reduced (rand : nat -> Q) (acc : RevealState * list RevealEffect) (en : Entry) :
  snd (io_entry true rand acc en) = snd acc
  /\ rng (fst (io_entry true rand acc en)) = rng (fst acc)
  /\ forall j x, ritems (fst acc) !! j = Some x ->
       exists x', ritems (fst (io_entry true rand acc en)) !! j = Some x' /\ bursts x' = bursts x.
Proof.
  destruct acc as [st effs]; unfold io_entry; simpl.
  destruct (isIntersecting en); [|eauto].
  destruct (ritems st !! target en) as [it|] eqn:Ht; [|eauto].
  repeat case_match; simpl; (split; [reflexivity | split; [reflexivity|]]);
    intros j x Hj; eapply (insert_rel (fun x y => bursts y = bursts x)); eauto.
Qed.

Lemma io_fold_reduced (rand : nat -> Q) (entries : list Entry) (acc : RevealState * list RevealEffect) :
  snd (fold_left (io_entry true rand) entries acc) = snd acc
  /\ rng (fst (fold_left (io_entry true rand) entries acc)) = rng (fst acc)
  /\ forall j x, ritems (fst acc) !! j = Some x ->
       exists x', ritems (fst (fold_left (io_entry true rand) entries acc)) !! j = Some x'
                  /\ bursts x' = bursts x.
Proof.
  revert acc; induction entries as [|en entries IH]; intros acc; simpl; [eauto|].
  destruct (io_entry_reduced rand acc en) as (E1 & R1 & B1).
  destruct (IH (io_entry true rand acc en)) as (E2 & R2 & B2).
  split; [congruence | split; [congruence|]].
  intros j x Hj. destruct (B1 j x Hj) as (x1 & H1 & Q1).
  destruct (B2 j x1 H1) as (x2 & H2 & Q2). exists x2. split; [exact H2 | congruence].
Qed.

(** with reduced motion preferred, a callback creates no burst and
    schedules no removal timer, and draws no random value (the [in-view]
    transition does not depend on [reduced]). *)
Theorem reveal_reduced_no_burst (rand : nat -> Q) (st : RevealState) (entries : list Entry) :
  snd (io_callback true rand st entries) = []
  /\ rng (fst (io_callback true rand st entries)) = rng st
  /\ forall j x, ritems st !! j = Some x ->
       exists x', ritems (fst (io_callback true rand st entries)) !! j = Some x'
                  /\ bursts x' = bursts x.
Proof. apply (io_fold_reduced rand entries (st, [])). Qed.

End RevealFacts.

Module RevealWitness.
Import RevealFacts.

Lemma io_callback_marks_witness :
  exists x', ritems (fst (io_callback false (fun _ => 0) fresh [mkEntry 2 true])) !! 2%nat = Some x'
             /\ has_class "in-view" x' = true.
Proof. apply io_callback_marks; [left; reflexivity | simpl; lia]. Defined.

Lemma reveal_retriggers_witness :
  exists it', ritems (visible_invisible_visible (fun _ => 1 # 2) false 0 fresh) !! 0%nat = Some it'
    /\ length (bursts it') = 2%nat.
Proof. apply (reveal_retriggers (fun _ => 1 # 2) fresh 0 reveal_item_init); reflexivity. Defined.

End RevealWitness.
