(* ===== verification/Page.v ===== *)
(** * The page: [renderTimeline]'s listeners composed into one event loop

    [src/credentials.js], lines 97-108 and 170-175: after building the DOM,
    [renderTimeline] observes every item, requests the initial draw, adds a
    [resize] listener (a 120 ms debounce through [resizeTimer]), a
    [scroll] listener and the drag listeners.  Everything then runs on the
    host's single-threaded event loop.

    - [Page] is the whole mutable state: the scheduler ([Scheduler]), the
      SVG children ([Geometry]), the clock, the pending [setTimeout]
      timers in creation order, the [resizeTimer] variable, the reveal
      state ([Reveal]) and one [DragItem] per content element ([Drag]).
    - [event] lists what the host delivers: scroll and resize events, the
      interact.js callbacks of item [i], an [IntersectionObserver]
      callback, an animation frame (with the layout the browser computed:
      the container's box and what the frame callback reads of every
      item), and the clock advancing to a time [t], during which the due
      timers fire in order of due time, then creation.
    - [page_step] is the host's dispatch; [reachable] the pages reachable
      from [page_init] by any sequence of events.  The layout is an input
      of [Frame]: the browser's layout engine is not modelled.
    - Section variables: [reduced] is [PREFERS_REDUCED], [rand] is
      [Math.random], [hypot] is [Math.hypot] (see [Drag]).
    - [PageFacts] proves, by rule induction on [reachable], that the
      scheduler stays well formed and timer ids unique ([page_inv]), that
      every live burst has a pending removal timer and is gone once the
      clock passes it, that [in-view] is never lost, and, for single
      events, the redraw of scroll, resize (debounced) and drag events and
      the settling of a released card. *)

From Stdlib Require Import QArith Qminmax Lqa String List Bool Lia.
From stdpp Require Import base list.
From S2P Require Import Prelude Geometry Scheduler Drag Sparkle Reveal.
Import ListNotations.
Import Geometry.Connector Geometry.Pass.
Open Scope Q_scope.

(** What a pending timer runs: [drawConnectors] (lines 104 and 163, as
    [onUpdate]) or the burst removal of line 133. *)
Inductive TimerCb :=
  | TDraw
  | TRemoveBurst (i b : nat).

Record Timer := mkTimer { tid : nat; due : Q; cb : TimerCb }.

Record Page := mkPage {
  sched : Sched;
  svg : list SvgPath;
  now : Q;
  timers : list Timer;
  next_tid : nat;
  resizeTimer : option nat;
  reveal : RevealState;
  drags : list DragItem
}.

Inductive event :=
  | Scroll
  | Resize
  | DragStart (i : nat)
  | DragMove (i : nat) (dx dy : Q)
  | DragEnd (i : nat)
  | Intersect (entries : list Entry)
  | Frame (svgRect : Rect) (items : list ItemView)
  | Advance (t : Q).

(** ** Host primitives *)

(** [setTimeout(cb, delay)]: a fresh identifier, due [delay] ms from now. *)
Definition setTimeout (c : TimerCb) (delay : Q) (p : Page) : Page * nat :=
  (mkPage (sched p) (svg p) (now p) (timers p ++ [mkTimer (next_tid p) (now p + delay) c])
     (S (next_tid p)) (resizeTimer p) (reveal p) (drags p), next_tid p).

(** [clearTimeout(id)]; [clearTimeout(undefined)] does nothing. *)
Definition clearTimeout (id : option nat) (p : Page) : Page :=
  match id with
  | None => p
  | Some n =>
      mkPage (sched p) (svg p) (now p)
        (List.filter (fun tm => negb (Nat.eqb (tid tm) n)) (timers p))
        (next_tid p) (resizeTimer p) (reveal p) (drags p)
  end.

Definition with_sched (s : Sched) (p : Page) : Page :=
  mkPage s (svg p) (now p) (timers p) (next_tid p) (resizeTimer p) (reveal p) (drags p).

Definition with_drags (ds : list DragItem) (p : Page) : Page :=
  mkPage (sched p) (svg p) (now p) (timers p) (next_tid p) (resizeTimer p) (reveal p) ds.

(** [drawConnectors()] called from a listener. *)
Definition request_redraw (p : Page) : Page := with_sched (drawConnectors (sched p)) p.

Section Loop.
Variables (reduced : bool) (rand : nat -> Q) (hypot : Q -> Q -> Q).

(** ** Listeners *)

(** Line 104: [clearTimeout(resizeTimer); resizeTimer = setTimeout(drawConnectors, 120)]. *)
Definition on_resize (p : Page) : Page :=
  let p1 := clearTimeout (resizeTimer p) p in
  let '(p2, id) := setTimeout TDraw 120 p1 in
  mkPage (sched p2) (svg p2) (now p2) (timers p2) (next_tid p2) (Some id) (reveal p2) (drags p2).

(** The effects of a drag listener: [onUpdate()] or
    [setTimeout(onUpdate, delay)]. *)
Definition run_drag_effect (p : Page) (e : DragEffect) : Page :=
  match e with
  | RequestRedraw => request_redraw p
  | ScheduleRedraw delay => fst (setTimeout TDraw delay p)
  end.

(** A listener of item [i]'s closure; interact.js only calls listeners of
    existing elements. *)
Definition on_drag (f : DragItem -> DragItem * list DragEffect) (i : nat) (p : Page) : Page :=
  match drags p !! i with
  | None => p
  | Some it =>
      let '(it', effs) := f it in
      fold_left run_drag_effect effs (with_drags (<[i := it']> (drags p)) p)
  end.

(** The removal timers the reveal callback requests. *)
Definition run_reveal_effect (p : Page) (e : RevealEffect) : Page :=
  match e with
  | RemoveBurstAfter i b delay => fst (setTimeout (TRemoveBurst i b) delay p)
  end.

Definition on_intersect (entries : list Entry) (p : Page) : Page :=
  let '(rs, effs) := io_callback reduced rand (reveal p) entries in
  fold_left run_reveal_effect effs
    (mkPage (sched p) (svg p) (now p) (timers p) (next_tid p) (resizeTimer p) rs (drags p)).

(** An animation frame: [Scheduler.frame] with the geometry pass on the
    layout of this frame. *)
Definition on_frame (svgRect : Rect) (items : list ItemView) (p : Page) : Page :=
  let '(s, paths) := frame (fun children => draw_pass children svgRect items) (sched p, svg p) in
  mkPage s paths (now p) (timers p) (next_tid p) (resizeTimer p) (reveal p) (drags p).

(** ** Timers and the clock *)

(** The timer that fires first among those due by [t]: earliest due
    time, then earliest created. *)
Fixpoint earliest (l : list Timer) (t : Q) : option Timer :=
  match l with
  | [] => None
  | tm :: rest =>
      let best := earliest rest t in
      if Qle_bool (due tm) t then
        match best with
        | Some b => if Qle_bool (due tm) (due b) then Some tm else Some b
        | None => Some tm
        end
      else best
  end.

(** anime.js's animations at the current time. *)
Definition tick_anims (p : Page) : Page := with_drags (map (anim_tick (now p)) (drags p)) p.

(** Fire one timer: it leaves the list, the clock moves to its due time,
    and its callback runs. *)
Definition fire (tm : Timer) (p : Page) : Page :=
  let p1 := tick_anims
      (mkPage (sched p) (svg p) (Qmax (now p) (due tm))
         (List.filter (fun x => negb (Nat.eqb (tid x) (tid tm))) (timers p))
         (next_tid p) (resizeTimer p) (reveal p) (drags p)) in
  match cb tm with
  | TDraw => request_redraw p1
  | TRemoveBurst i b =>
      mkPage (sched p1) (svg p1) (now p1) (timers p1) (next_tid p1) (resizeTimer p1)
        (remove_burst i b (reveal p1)) (drags p1)
  end.

(** Fire the due timers one by one, at most [fuel] of them. *)
Fixpoint fire_due (fuel : nat) (t : Q) (p : Page) : Page :=
  match fuel with
  | O => p
  | S f =>
      match earliest (timers p) t with
      | None => p
      | Some tm => fire_due f t (fire tm p)
      end
  end.

(** The clock advances to [t] (a time in the past changes nothing).  No
    callback adds a timer, so [length (timers p)] firings are enough
    ([fire_due_complete]). *)
Definition advance (t : Q) (p : Page) : Page :=
  if Qle_bool (now p) t then
    let p1 := fire_due (length (timers p)) t p in
    tick_anims (mkPage (sched p1) (svg p1) t (timers p1) (next_tid p1) (resizeTimer p1)
                  (reveal p1) (drags p1))
  else p.

(** ** Dispatch *)

Definition page_step (p : Page) (e : event) : Page :=
  match e with
  | Scroll => request_redraw p
  | Resize => on_resize p
  | DragStart i => on_drag (fun it => (drag_start it, [])) i p
  | DragMove i dx dy => on_drag (drag_move hypot dx dy) i p
  | DragEnd i => on_drag (drag_end (now p)) i p
  | Intersect entries => on_intersect entries p
  | Frame svgRect items => on_frame svgRect items p
  | Advance t => advance t p
  end.

End Loop.

(** Lines 97-108 for [n] items, at time [t0]: nothing drawn yet, the
    initial [drawConnectors()] pending, no timer, fresh items. *)
Definition page_init (n : nat) (t0 : Q) : Page :=
  mkPage (drawConnectors sched_init) [] t0 [] 0 None
    (mkRevealState (replicate n reveal_item_init) 0 0) (replicate n drag_init).

Inductive reachable (reduced : bool) (rand : nat -> Q) (hypot : Q -> Q -> Q) : Page -> Prop :=
  | reach_init : forall n t0, reachable reduced rand hypot (page_init n t0)
  | reach_step : forall p e,
      reachable reduced rand hypot p ->
      reachable reduced rand hypot (page_step reduced rand hypot p e).

(** ** Predicates used by the properties *)

(** The identifiers of the pending timers are pairwise distinct. *)
Definition tid_unique (l : list Timer) : Prop := NoDup (map tid l).

(** The scheduler is well formed and every pending timer has a distinct
    identifier below the next one [setTimeout] hands out. *)
Definition page_inv (p : Page) : Prop :=
  sched_wf (sched p) /\ Forall (fun tm => (tid tm < next_tid p)%nat) (timers p)
  /\ tid_unique (timers p).

(** The card an event is addressed to, for the interact.js callbacks. *)
Definition drag_target (e : event) : option nat :=
  match e with
  | DragStart i | DragMove i _ _ | DragEnd i => Some i
  | _ => None
  end.

(** [st'] has every item of [st], each with at least its classes. *)
Definition reveal_le (st st' : RevealState) : Prop :=
  forall j x, ritems st !! j = Some x -> exists x', ritems st' !! j = Some x' /\ item_le x x'.

(** Every burst on a dot has its removal timer pending, due at most
    1200 ms from now. *)
Definition bursts_tracked (p : Page) : Prop :=
  forall j x b, ritems (reveal p) !! j = Some x -> In b (bursts x) ->
  exists tm, In tm (timers p) /\ cb tm = TRemoveBurst j (burst_id b)
             /\ due tm <= now p + CLEANUP_DELAY.

(** [resizeTimer] names an identifier already handed out, and only the
    redraw timer of a resize can carry it. *)
Definition resize_ok (p : Page) : Prop :=
  forall n, resizeTimer p = Some n ->
  (n < next_tid p)%nat /\ forall tm, In tm (timers p) -> tid tm = n -> cb tm = TDraw.

(** [q] is [p] with more timers, all with fresh identifiers, and the
    same clock and [resizeTimer]. *)
Definition grows (p q : Page) : Prop :=
  now q = now p /\ resizeTimer q = resizeTimer p /\ (next_tid p <= next_tid q)%nat
  /\ (forall tm, In tm (timers p) -> In tm (timers q))
  /\ (forall tm, In tm (timers q) -> In tm (timers p) \/ (next_tid p <= tid tm)%nat).

(** A sample page: three cards, [Math.random] always 1/2, the maximum
    norm for [Math.hypot], reduced motion off. *)
Module Sample.
Definition rnd : nat -> Q := fun _ => 1 # 2.
Definition p0 : Page := page_init 3 0.
Definition step := page_step false rnd hypot_max.
(** The first card after an observer callback reports it visible. *)
Definition p1 : Page := step p0 (Intersect [mkEntry 0 true]).
Definition sparks0 : list Spark := fst (spawn rnd Sparkle.count 0 0).
Definition revealed_item : RevealItem :=
  mkRevealItem ["timeline-item"; "in-view"]%string true [mkBurst 0 sparks0].

End Sample.

(** ** Invariants of the event loop *)

Module PageFacts.
Import SchedFacts PassFacts RevealFacts DragFacts.

Lemma Forall_tid_lt_S (l : list Timer) (n : nat) :
  Forall (fun tm => (tid tm < n)%nat) l -> Forall (fun tm => (tid tm < S n)%nat) l.
Proof. intros H. eapply Forall_impl; [exact H|]. simpl; intros; lia. Qed.

Lemma Forall_filter_timers (P : Timer -> Prop) (f : Timer -> bool) (l : list Timer) :
  Forall P l -> Forall P (List.filter f l).
Proof. rewrite !List.Forall_forall. intros H x Hx. apply filter_In in Hx. apply H, Hx. Qed.

#[local] Hint Resolve Forall_tid_lt_S Forall_filter_timers : tl.

Lemma tid_unique_inj (l : list Timer) :
  tid_unique l -> forall a b, In a l -> In b l -> tid a = tid b -> a = b.
Proof.
  unfold tid_unique. induction l as [|x l IH]; intros H a b Ha Hb E; [destruct Ha|].
  inversion H as [|? ? Hx Hnd]; subst. rewrite list_elem_of_In in Hx.
  destruct Ha as [<-|Ha], Hb as [<-|Hb]; auto;
    exfalso; apply Hx; [rewrite E | rewrite <- E]; apply in_map; assumption.
Qed.

Lemma tid_unique_filter (f : Timer -> bool) (l : list Timer) :
  tid_unique l -> tid_unique (List.filter f l).
Proof.
  unfold tid_unique. induction l as [|x l IH]; intros H; simpl; [exact H|].
  inversion H as [|? ? Hx Hnd]; subst. rewrite list_elem_of_In in Hx.
  destruct (f x); simpl; [|auto].
  constructor; [|auto]. rewrite list_elem_of_In. intros Hin. apply Hx.
  apply in_map_iff in Hin as (y & Ey & Hy). apply filter_In in Hy as [Hy _].
  rewrite <- Ey. apply in_map, Hy.
Qed.

Lemma tid_unique_snoc (l : list Timer) (tm : Timer) :
  tid_unique l -> Forall (fun x => (tid x < tid tm)%nat) l -> tid_unique (l ++ [tm]).
Proof.
  unfold tid_unique. rewrite map_app. intros H Hlt. apply NoDup_app. split; [exact H|].
  split; [|apply NoDup_singleton].
  intros n Hn Hn'. rewrite list_elem_of_In in Hn, Hn'. destruct Hn' as [E|[]]; subst n.
  apply in_map_iff in Hn as (x & Ex & Hx).
  rewrite List.Forall_forall in Hlt. specialize (Hlt x Hx). rewrite Ex in Hlt. lia.
Qed.

#[local] Hint Resolve tid_unique_filter : tl.

Lemma setTimeout_inv (c : TimerCb) (d : Q) (p : Page) :
  page_inv p -> page_inv (fst (setTimeout c d p)).
Proof.
  intros (Hs & Ht & Hu). split; [exact Hs|]. simpl. split.
  - apply Forall_app; split; auto with tl.
  - apply tid_unique_snoc; assumption.
Qed.

Lemma clearTimeout_inv (id : option nat) (p : Page) : page_inv p -> page_inv (clearTimeout id p).
Proof. destruct id; [intros (Hs & Ht & Hu); split; simpl; auto with tl | auto]. Qed.

Lemma request_redraw_inv (p : Page) : page_inv p -> page_inv (request_redraw p).
Proof. intros (Hs & Ht). split; [apply drawConnectors_wf, Hs | exact Ht]. Qed.

Lemma with_drags_inv (ds : list DragItem) (p : Page) : page_inv p -> page_inv (with_drags ds p).
Proof. auto. Qed.

Lemma tick_anims_inv (p : Page) : page_inv p -> page_inv (tick_anims p).
Proof. auto. Qed.

#[local] Hint Resolve setTimeout_inv clearTimeout_inv request_redraw_inv with_drags_inv
  tick_anims_inv : tl.

Lemma run_drag_effects_inv (effs : list DragEffect) (p : Page) :
  page_inv p -> page_inv (fold_left run_drag_effect effs p).
Proof.
  revert p; induction effs as [|e effs IH]; intros p Hp; simpl; [exact Hp|].
  apply IH. destruct e; [apply request_redraw_inv | apply setTimeout_inv]; exact Hp.
Qed.

Lemma run_reveal_effects_inv (effs : list RevealEffect) (p : Page) :
  page_inv p -> page_inv (fold_left run_reveal_effect effs p).
Proof.
  revert p; induction effs as [|e effs IH]; intros p Hp; simpl; [exact Hp|].
  apply IH. destruct e; apply setTimeout_inv; exact Hp.
Qed.

#[local] Hint Resolve run_drag_effects_inv run_reveal_effects_inv : tl.

Lemma fire_inv (tm : Timer) (p : Page) : page_inv p -> page_inv (fire tm p).
Proof.
  intros (Hs & Ht & Hu). unfold fire.
  assert (H1 : page_inv (tick_anims (mkPage (sched p) (svg p) (Qmax (now p) (due tm))
      (List.filter (fun x => negb (Nat.eqb (tid x) (tid tm))) (timers p))
      (next_tid p) (resizeTimer p) (reveal p) (drags p))))
    by (apply tick_anims_inv; split; simpl; auto with tl).
  destruct (cb tm); auto with tl.
Qed.

Lemma fire_due_inv (fuel : nat) (t : Q) (p : Page) : page_inv p -> page_inv (fire_due fuel t p).
Proof.
  revert p; induction fuel as [|f IH]; intros p Hp; simpl; [exact Hp|].
  destruct (earliest (timers p) t); auto using fire_inv.
Qed.

Lemma on_drag_inv (f : DragItem -> DragItem * list DragEffect) (i : nat) (p : Page) :
  page_inv p -> page_inv (on_drag f i p).
Proof.
  intros Hp. unfold on_drag. destruct (drags p !! i) as [it|]; [|exact Hp].
  destruct (f it). auto with tl.
Qed.

Section WithParams.
Variables (reduced : bool) (rand : nat -> Q) (hypot : Q -> Q -> Q).
#[local] Set Default Proof Using "Type".

Lemma page_step_inv (p : Page) (e : event) :
  page_inv p -> page_inv (page_step reduced rand hypot p e).
Proof.
  intros Hp. destruct e; simpl.
  - auto with tl.
  - unfold on_resize.
    pose proof (setTimeout_inv TDraw 120 _ (clearTimeout_inv (resizeTimer p) p Hp)) as H1.
    destruct (setTimeout TDraw 120 (clearTimeout (resizeTimer p) p)). exact H1.
  - apply on_drag_inv, Hp.
  - apply on_drag_inv, Hp.
  - apply on_drag_inv, Hp.
  - unfold on_intersect. destruct (io_callback reduced rand (reveal p) entries).
    apply run_reveal_effects_inv. destruct Hp; split; assumption.
  - unfold on_frame. destruct Hp as [Hs Ht].
    pose proof (frame_wf (fun children => draw_pass children svgRect items) (sched p) (svg p) Hs).
    destruct (frame _ (sched p, svg p)). split; assumption.
  - unfold advance. destruct (Qle_bool (now p) t); [|exact Hp].
    destruct (fire_due_inv (length (timers p)) t p Hp) as [Hs Ht].
    apply tick_anims_inv. split; assumption.
Qed.

Lemma page_init_inv (n : nat) (t0 : Q) : page_inv (page_init n t0).
Proof. split; [reflexivity | split; [constructor | apply NoDup_nil_2]]. Qed.

Lemma reachable_inv (p : Page) : reachable reduced rand hypot p -> page_inv p.
Proof.
  induction 1; [apply page_init_inv | apply page_step_inv; assumption].
Qed.

(** C16: in every reachable page the redraw flag and the frame queue agree:
    a frame callback is queued exactly when [rafState.scheduled] is set. *)
Theorem page_sched_wf (p : Page) :
  reachable reduced rand hypot p -> sched_wf (sched p).
Proof. intros H. apply (reachable_inv p H). Qed.

(** C1: a scroll event is followed, at the next animation frame, by a
    redraw from that frame's layout: the surface holds exactly the
    connectors of that layout, nothing left from earlier frames, and no
    further frame is pending. *)
Theorem page_scroll_redraws (p : Page) (svgRect : Rect) (items : list ItemView) :
  reachable reduced rand hypot p ->
  let p' := page_step reduced rand hypot (page_step reduced rand hypot p Scroll)
              (Frame svgRect items) in
  svg p' = connectors svgRect items /\ sched p' = sched_init.
Proof.
  intros H. destruct (reachable_inv p H) as [Hwf _].
  cbn [page_step]. unfold on_frame, request_redraw, with_sched. cbn [sched svg].
  rewrite (frame_request _ (sched p) (svg p) Hwf). cbn [svg sched].
  split; [apply draw_pass_connectors | reflexivity].
Qed.

(** ** Drag listeners touch only their own card *)

Lemma run_drag_effects_drags (effs : list DragEffect) (p : Page) :
  drags (fold_left run_drag_effect effs p) = drags p
  /\ reveal (fold_left run_drag_effect effs p) = reveal p.
Proof.
  revert p; induction effs as [|e effs IH]; intros p; simpl; [auto|].
  destruct (IH (run_drag_effect p e)) as [-> ->]. destruct e; auto.
Qed.

(** C22: concurrent drags are independent: a drag callback of card [i]
    leaves the drag state of every other card unchanged. *)
Theorem page_drag_independent (p : Page) (e : event) (i j : nat) :
  drag_target e = Some i -> i <> j ->
  drags (page_step reduced rand hypot p e) !! j = drags p !! j.
Proof.
  intros He Hij.
  assert (Hgen : forall f, drags (on_drag f i p) !! j = drags p !! j).
  { intros f. unfold on_drag. destruct (drags p !! i) as [it|]; [|reflexivity].
    destruct (f it) as [it' effs]. rewrite (proj1 (run_drag_effects_drags _ _)).
    simpl. now apply list_lookup_insert_ne. }
  destruct e; simpl in He; try discriminate; injection He as <-; apply Hgen.
Qed.

(** C23: a [move] of card [i] stores the clamped offset of [drag_move] as
    the card's state and leaves a redraw pending for the next frame. *)
Theorem page_drag_move_redraws (p : Page) (i : nat) (dx dy : Q) (it : DragItem) :
  drags p !! i = Some it ->
  let p' := page_step reduced rand hypot p (DragMove i dx dy) in
  drags p' !! i = Some (fst (drag_move hypot dx dy it)) /\ scheduled (sched p') = true.
Proof.
  intros Hi. cbn [page_step]. unfold on_drag. rewrite Hi. cbn [drag_move fold_left].
  split.
  - unfold run_drag_effect, request_redraw, with_sched, with_drags; cbn [drags].
    apply list_lookup_insert_eq. eapply lookup_lt_Some; eauto.
  - apply drawConnectors_scheduled.
Qed.

(** ** The resize debounce *)

Lemma filter_tid_keep (l : list Timer) (m : nat) :
  Forall (fun tm => (tid tm < m)%nat) l ->
  List.filter (fun tm => negb (Nat.eqb (tid tm) m)) l = l.
Proof.
  induction 1 as [|tm l Hlt _ IH]; simpl; [reflexivity|].
  destruct (Nat.eqb_spec (tid tm) m); [lia|]. simpl. now rewrite IH.
Qed.

Lemma on_resize_shape (p : Page) :
  timers (on_resize p) = timers (clearTimeout (resizeTimer p) p)
                         ++ [mkTimer (next_tid p) (now p + 120) TDraw]
  /\ resizeTimer (on_resize p) = Some (next_tid p)
  /\ next_tid (on_resize p) = S (next_tid p)
  /\ now (on_resize p) = now p.
Proof. unfold on_resize; destruct (resizeTimer p); repeat split. Qed.

(** [k+1] resize events without time passing in between, from a page
    whose pending timers have identifiers below [next_tid]. *)
Lemma resize_iter (p : Page) (k : nat) :
  Forall (fun tm => (tid tm < next_tid p)%nat) (timers p) ->
  let p' := Nat.iter (S k) (fun q => page_step reduced rand hypot q Resize) p in
  timers p' = timers (clearTimeout (resizeTimer p) p)
              ++ [mkTimer (next_tid p + k) (now p + 120) TDraw]
  /\ resizeTimer p' = Some (next_tid p + k)%nat
  /\ next_tid p' = S (next_tid p + k)
  /\ now p' = now p.
Proof.
  intros Hfresh. induction k as [|k IH]; cbv zeta in *.
  - rewrite Nat.add_0_r. apply on_resize_shape.
  - change (Nat.iter (S (S k)) (fun q => page_step reduced rand hypot q Resize) p)
      with (on_resize (Nat.iter (S k) (fun q => page_step reduced rand hypot q Resize) p)).
    set (q := Nat.iter (S k) _ p) in *.
    destruct IH as (Ht & Hr & Hn & Hnow).
    destruct (on_resize_shape q) as (Ht' & Hr' & Hn' & Hnow').
    rewrite Ht', Hr', Hn', Hnow'. unfold clearTimeout at 1. rewrite Hr, Ht, Hn, Hnow.
    rewrite List.filter_app. cbn [List.filter tid].
    rewrite Nat.eqb_refl. cbn [negb]. rewrite app_nil_r, filter_tid_keep.
    + rewrite !Nat.add_succ_r. repeat split.
    + assert (Hc : Forall (fun tm => (tid tm < next_tid p)%nat)
                     (timers (clearTimeout (resizeTimer p) p)))
        by (destruct (resizeTimer p); simpl; auto using Forall_filter_timers).
      eapply Forall_impl; [exact Hc|]. simpl; intros; lia.
Qed.

(** C7: resize events are debounced: any number [k >= 1] of resize events
    with no time passing in between cancel the earlier pending resize
    timer and leave exactly one new redraw timer, due 120 ms after them,
    which [resizeTimer] names. *)
Theorem page_resize_debounce (p : Page) (k : nat) :
  reachable reduced rand hypot p -> (1 <= k)%nat ->
  let p' := Nat.iter k (fun q => page_step reduced rand hypot q Resize) p in
  timers p' = timers (clearTimeout (resizeTimer p) p)
              ++ [mkTimer (next_tid p + (k - 1)) (now p + 120) TDraw]
  /\ resizeTimer p' = Some (next_tid p + (k - 1))%nat.
Proof.
  intros H Hk. destruct k as [|k]; [lia|].
  destruct (reachable_inv p H) as (_ & Hfresh & _).
  destruct (resize_iter p k Hfresh) as (Ht & Hr & _).
  rewrite Nat.sub_succ, Nat.sub_0_r. split; assumption.
Qed.

(** ** Timers and the settling redraw *)

Lemma earliest_some (l : list Timer) (t : Q) (tm : Timer) :
  earliest l t = Some tm -> In tm l /\ due tm <= t.
Proof.
  induction l as [|x l IH]; simpl; [discriminate|].
  destruct (Qle_bool_spec (due x) t) as [Hx|Hx].
  - destruct (earliest l t) as [b|] eqn:E.
    + destruct (Qle_bool (due x) (due b)); intros H; injection H as <-;
        [auto | destruct (IH eq_refl); auto].
    + intros H; injection H as <-; auto.
  - intros H. destruct (IH H); auto.
Qed.

Lemma earliest_none (l : list Timer) (t : Q) :
  earliest l t = None -> forall tm, In tm l -> t < due tm.
Proof.
  induction l as [|x l IH]; simpl; [intros _ tm []|].
  destruct (Qle_bool_spec (due x) t) as [Hx|Hx].
  - destruct (earliest l t) as [b|]; [destruct (Qle_bool (due x) (due b))|]; intros H; discriminate H.
  - intros H tm [<-|Hin]; [apply Qnot_le_lt, Hx | apply IH; assumption].
Qed.

Lemma filter_length_lt {A} (f : A -> bool) (l : list A) (x : A) :
  In x l -> f x = false -> (length (List.filter f l) < length l)%nat.
Proof.
  induction l as [|y l IH]; simpl; [tauto|]. intros [<-|Hin] Hf.
  - rewrite Hf. pose proof (filter_length_le f l) as H. simpl. lia.
  - destruct (f y); simpl; [apply -> Nat.succ_lt_mono; auto | pose proof (IH Hin Hf); lia].
Qed.

Lemma fire_timers (tm : Timer) (p : Page) :
  timers (fire tm p) = List.filter (fun x => negb (Nat.eqb (tid x) (tid tm))) (timers p).
Proof. unfold fire; destruct (cb tm); reflexivity. Qed.

Lemma fire_drags (tm : Timer) (p : Page) :
  drags (fire tm p) = map (anim_tick (Qmax (now p) (due tm))) (drags p).
Proof. unfold fire; destruct (cb tm); reflexivity. Qed.

Lemma fire_scheduled (tm : Timer) (p : Page) :
  scheduled (sched p) = true \/ cb tm = TDraw -> scheduled (sched (fire tm p)) = true.
Proof.
  unfold fire. destruct (cb tm); simpl; intros [H|H]; try discriminate;
    auto using drawConnectors_scheduled.
Qed.

Lemma fire_shrinks (tm : Timer) (p : Page) :
  In tm (timers p) -> (length (timers (fire tm p)) < length (timers p))%nat.
Proof. intros H. rewrite fire_timers. apply (filter_length_lt _ _ tm H). simpl. now rewrite Nat.eqb_refl. Qed.

(** With enough fuel every timer due by [t] fires: [fire_due] exhausts
    the due timers. *)
Lemma fire_due_complete (fuel : nat) (t : Q) (p : Page) :
  (length (timers p) <= fuel)%nat ->
  forall tm, In tm (timers (fire_due fuel t p)) -> t < due tm.
Proof.
  revert p; induction fuel as [|f IH]; intros p Hlen; simpl.
  - destruct (timers p); simpl in *; [intros tm [] | lia].
  - destruct (earliest (timers p) t) as [tm|] eqn:E; [|apply earliest_none; exact E].
    apply IH. destruct (earliest_some _ _ _ E) as [Hin _].
    pose proof (fire_shrinks tm p Hin). lia.
Qed.

(** A redraw timer due by [t] (or a pending frame) leaves a frame
    pending once the due timers have fired. *)
Lemma fire_due_redraws (fuel : nat) (t : Q) (p : Page) :
  tid_unique (timers p) -> (length (timers p) <= fuel)%nat ->
  scheduled (sched p) = true \/ (exists tm, In tm (timers p) /\ cb tm = TDraw /\ due tm <= t) ->
  scheduled (sched (fire_due fuel t p)) = true.
Proof.
  revert p; induction fuel as [|f IH]; intros p Hu Hlen Hpend; simpl.
  - destruct Hpend as [H|(tm & Hin & _)]; [exact H|]. destruct (timers p); simpl in *; [destruct Hin | lia].
  - destruct (earliest (timers p) t) as [tm|] eqn:E.
    + destruct (earliest_some _ _ _ E) as [Hin Hdue].
      apply IH.
      * rewrite fire_timers. apply tid_unique_filter, Hu.
      * pose proof (fire_shrinks tm p Hin). lia.
      * destruct (cb tm) eqn:Hcb.
        { left. apply fire_scheduled. auto. }
        destruct Hpend as [H|(tm0 & Hin0 & Hcb0 & Hdue0)]; [left; apply fire_scheduled; auto|].
        right. exists tm0. split; [|auto]. rewrite fire_timers. apply filter_In. split; [exact Hin0|].
        destruct (Nat.eqb_spec (tid tm0) (tid tm)) as [Heq|]; [|reflexivity].
        pose proof (tid_unique_inj _ Hu _ _ Hin0 Hin Heq) as ->. congruence.
    + destruct Hpend as [H|(tm0 & Hin0 & _ & Hdue0)]; [exact H|].
      pose proof (earliest_none _ _ E tm0 Hin0). lra.
Qed.

(** A card after [end] at time [s]: offset reset, and either the
    spring-back still running or finished with the translation at 0. *)
Definition settling (s : Q) (it : DragItem) : Prop :=
  pos it = (0, 0)
  /\ (anims it = [mkAnim s SNAP_DURATION] \/ (anims it = [] /\ transform it = Some (0, 0))).

Lemma anim_tick_settling (s tau : Q) (it : DragItem) :
  settling s it -> settling s (anim_tick tau it)
  /\ (s + SNAP_DURATION <= tau -> anims (anim_tick tau it) = [] /\ transform (anim_tick tau it) = Some (0, 0)).
Proof.
  intros [Hp [Ha | [Ha Ht]]].
  - destruct (Qle_bool_spec (s + SNAP_DURATION) tau) as [Hle|Hlt].
    + destruct (anim_tick_settled s tau it Ha Hle) as (A & T & P).
      split; [split; [rewrite P; exact Hp | right; auto] | auto].
    + apply Qnot_le_lt in Hlt. rewrite (anim_tick_running s tau it Ha Hlt).
      split; [split; [exact Hp | left; exact Ha] | intros; lra].
  - rewrite (anim_tick_none tau it Ha). split; [split; [exact Hp | right; auto] | auto].
Qed.

Lemma fire_due_settling (fuel : nat) (t s : Q) (p : Page) (i : nat) (it : DragItem) :
  drags p !! i = Some it -> settling s it ->
  exists it', drags (fire_due fuel t p) !! i = Some it' /\ settling s it'.
Proof.
  revert p it; induction fuel as [|f IH]; intros p it Hi Hs; simpl; [eauto|].
  destruct (earliest (timers p) t) as [tm|]; [|eauto].
  apply (IH _ (anim_tick (Qmax (now p) (due tm)) it)); [|apply anim_tick_settling, Hs].
  rewrite fire_drags, list_lookup_fmap, Hi. reflexivity.
Qed.

(** The page right after [end] on card [i]. *)
Lemma drag_end_page (p : Page) (i : nat) (it : DragItem) :
  drags p !! i = Some it ->
  let p1 := page_step reduced rand hypot p (DragEnd i) in
  drags p1 !! i = Some (fst (drag_end (now p) it)) /\ now p1 = now p
  /\ timers p1 = timers p ++ [mkTimer (next_tid p) (now p + SETTLE_DELAY) TDraw].
Proof.
  intros Hi. cbn [page_step]. unfold on_drag. rewrite Hi. cbn [drag_end fold_left snd fst].
  repeat split. apply list_lookup_insert_eq. eapply lookup_lt_Some; eauto.
Qed.

(** C8: after [end] on a card, advancing the clock by the 920 ms of the
    settling timer leaves a redraw pending and the card settled: its
    900 ms spring-back has finished, its translation is back at 0 and its
    offset is 0, so the next frame draws the settled connector. *)
Theorem page_drag_end_settles (p : Page) (i : nat) (it : DragItem) :
  reachable reduced rand hypot p -> drags p !! i = Some it ->
  let p2 := page_step reduced rand hypot (page_step reduced rand hypot p (DragEnd i))
              (Advance (now p + SETTLE_DELAY)) in
  scheduled (sched p2) = true
  /\ exists it2, drags p2 !! i = Some it2
       /\ anims it2 = [] /\ transform it2 = Some (0, 0) /\ pos it2 = (0, 0).
Proof.
  intros Hr Hi. cbv zeta.
  pose proof (page_step_inv p (DragEnd i) (reachable_inv p Hr)) as (_ & Hfresh & Hu).
  destruct (drag_end_page p i it Hi) as (Hd1 & Hn1 & Ht1).
  set (p1 := page_step reduced rand hypot p (DragEnd i)) in *.
  cbn [page_step]. unfold advance. rewrite Hn1.
  destruct (Qle_bool_spec (now p) (now p + SETTLE_DELAY)) as [_|Hc];
    [|exfalso; apply Hc; unfold SETTLE_DELAY; lra].
  set (t := now p + SETTLE_DELAY).
  set (p3 := fire_due (length (timers p1)) t p1).
  split.
  - unfold tick_anims, with_drags. cbn [sched].
    apply fire_due_redraws; [exact Hu | lia | right].
    exists (mkTimer (next_tid p) t TDraw). rewrite Ht1. split; [apply in_or_app; right; left; reflexivity|].
    split; [reflexivity | apply Qle_refl].
  - assert (Hs1 : settling (now p) (fst (drag_end (now p) it))) by (split; [reflexivity | left; reflexivity]).
    destruct (fire_due_settling (length (timers p1)) t (now p) p1 i _ Hd1 Hs1) as (it3 & H3 & S3).
    fold p3 in H3.
    exists (anim_tick t it3). unfold tick_anims, with_drags. cbn [drags now].
    rewrite list_lookup_fmap, H3. split; [reflexivity|].
    destruct (anim_tick_settling (now p) t it3 S3) as [[Hp _] Hfin].
    destruct (Hfin ltac:(unfold t, SNAP_DURATION, SETTLE_DELAY; lra)) as [A T].
    repeat split; assumption.
Qed.

(** ** Reveal is one-way across the whole loop *)

Lemma reveal_le_refl (st : RevealState) : reveal_le st st.
Proof. intros j x H. exists x. split; [exact H | apply item_le_refl]. Qed.

Lemma reveal_le_trans (a b c : RevealState) : reveal_le a b -> reveal_le b c -> reveal_le a c.
Proof.
  intros H1 H2 j x Hx. destruct (H1 j x Hx) as (y & Hy & L1).
  destruct (H2 j y Hy) as (z & Hz & L2). eauto using item_le_trans.
Qed.

#[local] Hint Resolve reveal_le_refl : tl.

Lemma remove_burst_le (i b : nat) (st : RevealState) : reveal_le st (remove_burst i b st).
Proof.
  intros j x Hx. unfold remove_burst. destruct (ritems st !! i) as [it|] eqn:Hi;
    [|exists x; split; [exact Hx | apply item_le_refl]].
  eapply insert_rel; [apply item_le_refl | exact Hi | split; [intros c H; exact H | reflexivity] | exact Hx].
Qed.

Lemma run_reveal_effects_reveal (effs : list RevealEffect) (p : Page) :
  reveal (fold_left run_reveal_effect effs p) = reveal p.
Proof.
  revert p; induction effs as [|e effs IH]; intros p; simpl; [reflexivity|].
  rewrite IH. destruct e; reflexivity.
Qed.

Lemma fire_reveal_le (tm : Timer) (p : Page) : reveal_le (reveal p) (reveal (fire tm p)).
Proof. unfold fire. destruct (cb tm); simpl; auto using remove_burst_le with tl. Qed.

Lemma fire_due_reveal_le (fuel : nat) (t : Q) (p : Page) :
  reveal_le (reveal p) (reveal (fire_due fuel t p)).
Proof.
  revert p; induction fuel as [|f IH]; intros p; simpl; [auto with tl|].
  destruct (earliest (timers p) t); eauto using reveal_le_trans, fire_reveal_le with tl.
Qed.

Lemma page_step_reveal_le (p : Page) (e : event) :
  reveal_le (reveal p) (reveal (page_step reduced rand hypot p e)).
Proof.
  assert (Hdrag : forall f i, reveal (on_drag f i p) = reveal p).
  { intros f i. unfold on_drag. destruct (drags p !! i) as [it|]; [|reflexivity].
    destruct (f it). now rewrite (proj2 (run_drag_effects_drags _ _)). }
  destruct e; simpl; rewrite ?Hdrag; auto with tl.
  - unfold on_resize. destruct (resizeTimer p); simpl; auto with tl.
  - unfold on_intersect. pose proof (io_fold_mono reduced rand entries (reveal p, [])) as Hm.
    unfold io_callback in *. destruct (fold_left _ entries _) as [rs effs].
    rewrite run_reveal_effects_reveal. intros j x Hx. apply (Hm j x Hx).
  - unfold on_frame. destruct (frame _ _). auto with tl.
  - unfold advance. destruct (Qle_bool (now p) t); simpl; [apply fire_due_reveal_le | auto with tl].
Qed.

(** C18: reveal is one-way for the whole page: no event (scroll, resize,
    drag, observer callback, frame, timer) removes a class from an item;
    once [in-view], an item stays [in-view]. *)
Theorem page_in_view_monotone (p : Page) (e : event) (j : nat) (x : RevealItem) (c : String.string) :
  ritems (reveal p) !! j = Some x -> has_class c x = true ->
  exists x', ritems (reveal (page_step reduced rand hypot p e)) !! j = Some x'
             /\ has_class c x' = true.
Proof.
  intros Hx Hc. destruct (page_step_reveal_le p e j x Hx) as (x' & H & [L _]). eauto.
Qed.

(** ** Bursts are always cleaned up *)

Lemma grows_refl (p : Page) : grows p p.
Proof. repeat split; auto; lia. Qed.

Lemma grows_trans (p q r : Page) : grows p q -> grows q r -> grows p r.
Proof.
  intros (N1 & R1 & T1 & S1 & F1) (N2 & R2 & T2 & S2 & F2).
  repeat split; try congruence; [lia | auto |].
  intros tm H. destruct (F2 tm H) as [H'|H']; [destruct (F1 tm H')|]; auto; right; lia.
Qed.

Lemma setTimeout_grows (c : TimerCb) (d : Q) (p : Page) : grows p (fst (setTimeout c d p)).
Proof.
  repeat split; simpl; [lia | intros; apply in_or_app; auto |].
  intros tm H. apply in_app_or in H as [H|[<-|[]]]; auto.
Qed.

Lemma request_redraw_grows (p : Page) : grows p (request_redraw p).
Proof. exact (grows_refl p). Qed.

#[local] Hint Resolve grows_refl setTimeout_grows request_redraw_grows : tl.

Lemma run_drag_effects_grows (effs : list DragEffect) (p : Page) :
  grows p (fold_left run_drag_effect effs p).
Proof.
  revert p; induction effs as [|e effs IH]; intros p; simpl; [auto with tl|].
  eapply grows_trans; [|apply IH]. destruct e; [apply request_redraw_grows | apply setTimeout_grows].
Qed.

Lemma run_reveal_effects_grows (effs : list RevealEffect) (p : Page) :
  grows p (fold_left run_reveal_effect effs p).
Proof.
  revert p; induction effs as [|e effs IH]; intros p; simpl; [auto with tl|].
  eapply grows_trans; [|apply IH]. destruct e; apply setTimeout_grows.
Qed.

(** The removal requests of a callback become pending timers. *)
Lemma run_reveal_effects_timer (effs : list RevealEffect) (p : Page) (i b : nat) (d : Q) :
  In (RemoveBurstAfter i b d) effs ->
  exists tm, In tm (timers (fold_left run_reveal_effect effs p))
             /\ cb tm = TRemoveBurst i b /\ due tm = now p + d.
Proof.
  revert p; induction effs as [|e effs IH]; intros p Hin; [destruct Hin|].
  destruct Hin as [->|Hin]; simpl.
  - exists (mkTimer (next_tid p) (now p + d) (TRemoveBurst i b)).
    split; [|auto]. apply (run_reveal_effects_grows effs). simpl. apply in_or_app; simpl; auto.
  - destruct e as [i' b' d']. destruct (IH (run_reveal_effect p (RemoveBurstAfter i' b' d')) Hin) as (tm & H1 & H2 & H3).
    exists tm. repeat split; auto.
Qed.

Lemma grows_resize_ok (p q : Page) : page_inv p -> grows p q -> resize_ok p -> resize_ok q.
Proof.
  intros (_ & Hfresh & _) (N & R & T & S & F) Hok n Hn. rewrite R in Hn.
  destruct (Hok n Hn) as [Hlt Hcb]. split; [lia|].
  intros tm Hin Htid. destruct (F tm Hin) as [H|H]; [auto | lia].
Qed.

Lemma grows_tracked (p q : Page) :
  grows p q -> reveal q = reveal p -> bursts_tracked p -> bursts_tracked q.
Proof.
  intros (N & R & T & S & F) Hrev Htr j x b Hx Hb. rewrite Hrev in Hx.
  destruct (Htr j x b Hx Hb) as (tm & H1 & H2 & H3). exists tm. rewrite N. auto.
Qed.

Lemma fire_now (tm : Timer) (p : Page) : now (fire tm p) = Qmax (now p) (due tm).
Proof. unfold fire; destruct (cb tm); reflexivity. Qed.

Lemma fire_cleanup (tm : Timer) (p : Page) :
  In tm (timers p) -> page_inv p -> resize_ok p -> bursts_tracked p ->
  resize_ok (fire tm p) /\ bursts_tracked (fire tm p).
Proof.
  intros Htm (Hs & Hfresh & Hu) Hok Htr. split.
  - intros n Hn. assert (Hr : resizeTimer (fire tm p) = resizeTimer p)
      by (unfold fire; destruct (cb tm); reflexivity).
    rewrite Hr in Hn. destruct (Hok n Hn) as [Hlt Hcb].
    assert (Hn' : next_tid (fire tm p) = next_tid p) by (unfold fire; destruct (cb tm); reflexivity).
    rewrite Hn'. split; [exact Hlt|]. intros x Hx. rewrite fire_timers in Hx.
    apply filter_In in Hx as [Hx _]. auto.
  - intros j x b Hx Hb.
    assert (Hpre : exists x0, ritems (reveal p) !! j = Some x0 /\ In b (bursts x0)).
    { revert Hx; unfold fire; destruct (cb tm) as [|i b'] eqn:Hc; cbn [reveal]; [eauto|].
      intros Hx. apply (remove_burst_sub i b' _ j x b Hx Hb). }
    destruct Hpre as (x0 & H0 & B0). destruct (Htr j x0 b H0 B0) as (tm0 & I0 & C0 & D0).
    exists tm0. rewrite fire_timers, fire_now. split; [|split; [exact C0|]].
    + apply filter_In. split; [exact I0|].
      destruct (Nat.eqb_spec (tid tm0) (tid tm)) as [E|]; [|reflexivity]. exfalso.
      pose proof (tid_unique_inj _ Hu tm0 tm I0 Htm E) as ->.
      unfold fire in Hx. rewrite C0 in Hx. cbn [reveal] in Hx.
      exact (remove_burst_gone _ _ _ _ _ Hx Hb eq_refl).
    + pose proof (Q.le_max_l (now p) (due tm)). lra.
Qed.

Lemma fire_due_cleanup (fuel : nat) (t : Q) (p : Page) :
  page_inv p -> resize_ok p -> bursts_tracked p ->
  resize_ok (fire_due fuel t p) /\ bursts_tracked (fire_due fuel t p).
Proof.
  revert p; induction fuel as [|f IH]; intros p Hp Hok Htr; simpl; [auto|].
  destruct (earliest (timers p) t) as [tm|] eqn:E; [|auto].
  destruct (earliest_some _ _ _ E) as [Hin _].
  destruct (fire_cleanup tm p Hin Hp Hok Htr).
  apply IH; auto using fire_inv.
Qed.

Lemma fire_due_now (fuel : nat) (t : Q) (p : Page) :
  now p <= t -> now (fire_due fuel t p) <= t.
Proof.
  revert p; induction fuel as [|f IH]; intros p H; simpl; [exact H|].
  destruct (earliest (timers p) t) as [tm|] eqn:E; [|exact H].
  apply IH. rewrite fire_now. destruct (earliest_some _ _ _ E) as [_ Hd].
  apply Q.max_lub; assumption.
Qed.

Lemma page_step_cleanup (p : Page) (e : event) :
  page_inv p -> resize_ok p -> bursts_tracked p ->
  resize_ok (page_step reduced rand hypot p e) /\ bursts_tracked (page_step reduced rand hypot p e).
Proof.
  intros Hp Hok Htr.
  assert (Hgrow : forall q, grows p q -> reveal q = reveal p -> resize_ok q /\ bursts_tracked q)
    by (intros q G R; split; [eapply grows_resize_ok | eapply grows_tracked]; eauto).
  assert (Hdrag : forall f i, grows p (on_drag f i p) /\ reveal (on_drag f i p) = reveal p).
  { intros f i. unfold on_drag. destruct (drags p !! i) as [it|]; [|split; [apply grows_refl | reflexivity]].
    destruct (f it) as [it' effs]. split.
    - apply (grows_trans _ (with_drags (<[i:=it']> (drags p)) p)); [exact (grows_refl p)|].
      apply run_drag_effects_grows.
    - rewrite (proj2 (run_drag_effects_drags _ _)). reflexivity. }
  destruct e; cbn [page_step].
  - apply Hgrow; [exact (grows_refl p) | reflexivity].
  - (* resize *)
    destruct (on_resize_shape p) as (Ht & Hr & Hn & Hnow).
    assert (Hrev : reveal (on_resize p) = reveal p) by (unfold on_resize; destruct (resizeTimer p); reflexivity).
    destruct Hp as (_ & Hfresh & _). rewrite List.Forall_forall in Hfresh.
    assert (Hclear : forall tm, In tm (timers (clearTimeout (resizeTimer p) p)) <->
              In tm (timers p) /\ forall n, resizeTimer p = Some n -> tid tm <> n).
    { intros tm. destruct (resizeTimer p) as [n|]; simpl.
      - rewrite filter_In. split.
        + intros [H1 H2]. split; [exact H1|]. intros n' E; injection E as <-.
          destruct (Nat.eqb_spec (tid tm) n); [discriminate | assumption].
        + intros [H1 H2]. split; [exact H1|]. specialize (H2 n eq_refl).
          destruct (Nat.eqb_spec (tid tm) n); [contradiction | reflexivity].
      - split; [intros H; split; [exact H | discriminate] | tauto]. }
    split.
    + intros n Hn'. rewrite Hr in Hn'. injection Hn' as <-. rewrite Hn. split; [lia|].
      intros tm Hin Htid. rewrite Ht in Hin. apply in_app_or in Hin as [Hin|[<-|[]]]; [|reflexivity].
      apply Hclear in Hin as [Hin _]. specialize (Hfresh tm Hin). lia.
    + intros j x b Hx Hb. rewrite Hrev in Hx. destruct (Htr j x b Hx Hb) as (tm & I & C & D).
      exists tm. rewrite Ht, Hnow. split; [|auto]. apply in_or_app. left. apply Hclear.
      split; [exact I|]. intros n Hn' E. destruct (Hok n Hn') as [_ Hcb].
      rewrite (Hcb tm I E) in C. discriminate.
  - apply Hgrow; apply Hdrag.
  - apply Hgrow; apply Hdrag.
  - apply Hgrow; apply Hdrag.
  - (* intersect *)
    unfold on_intersect. pose proof (io_fold_tracked reduced rand entries (reveal p, [])) as Htrk.
    unfold io_callback. destruct (fold_left (io_entry reduced rand) entries (reveal p, [])) as [rs effs] eqn:E.
    set (q := mkPage (sched p) (svg p) (now p) (timers p) (next_tid p) (resizeTimer p) rs (drags p)).
    assert (Gq : grows p (fold_left run_reveal_effect effs q)).
    { apply (grows_trans _ q); [exact (grows_refl p) | apply run_reveal_effects_grows]. }
    split; [eapply grows_resize_ok; eauto|].
    intros j x b Hx Hb. rewrite run_reveal_effects_reveal in Hx. cbn [reveal q] in Hx.
    destruct (Htrk j x b Hx Hb) as [(x0 & H0 & B0)|Hin].
    + destruct (Htr j x0 b H0 B0) as (tm & I & C & D). destruct Gq as (N & _ & _ & S & _).
      exists tm. rewrite N. auto.
    + cbn [snd] in Hin. destruct (run_reveal_effects_timer effs q j (burst_id b) CLEANUP_DELAY Hin)
        as (tm & I & C & D).
      exists tm. split; [exact I|]. split; [exact C|]. rewrite D.
      destruct Gq as (N & _). rewrite N. apply Qle_refl.
  - (* frame *)
    unfold on_frame. destruct (frame _ _). apply Hgrow; [repeat split; auto | reflexivity].
  - (* advance *)
    unfold advance. destruct (Qle_bool_spec (now p) t) as [Hle|]; [|auto].
    destruct (fire_due_cleanup (length (timers p)) t p Hp Hok Htr) as [Ok1 Tr1].
    pose proof (fire_due_now (length (timers p)) t p Hle) as Hn1.
    set (p1 := fire_due (length (timers p)) t p) in *. split.
    + intros n Hn. apply (Ok1 n Hn).
    + intros j x b Hx Hb. destruct (Tr1 j x b Hx Hb) as (tm & I & C & D).
      exists tm. repeat split; [exact I | exact C |]. unfold tick_anims, with_drags; cbn [now]. lra.
Qed.

Lemma reachable_cleanup (p : Page) :
  reachable reduced rand hypot p -> resize_ok p /\ bursts_tracked p.
Proof.
  induction 1 as [n t0|p e Hr [Ok Tr]].
  - split; [intros n' H; discriminate | intros j x b Hx Hb].
    cbn [reveal page_init ritems] in Hx. apply lookup_replicate_1 in Hx as [-> _]. destruct Hb.
  - apply page_step_cleanup; auto using reachable_inv.
Qed.

(** C17: particle bursts cannot pile up: in every reachable page, each
    burst attached to a dot has its removal timer pending, due at most
    1200 ms from the current time. *)
Theorem page_bursts_tracked (p : Page) (j : nat) (x : RevealItem) (b : Burst) :
  reachable reduced rand hypot p -> ritems (reveal p) !! j = Some x -> In b (bursts x) ->
  exists tm, In tm (timers p) /\ cb tm = TRemoveBurst j (burst_id b)
             /\ due tm <= now p + CLEANUP_DELAY.
Proof. intros H. apply (proj2 (reachable_cleanup p H)). Qed.


(** No burst with identifier [bid] left on item [j]. *)
Definition no_burst (j bid : nat) (st : RevealState) : Prop :=
  forall x, ritems st !! j = Some x -> forall bu, In bu (bursts x) -> burst_id bu <> bid.

Lemma fire_reveal_sub (tm : Timer) (p : Page) (j : nat) (x : RevealItem) (bu : Burst) :
  ritems (reveal (fire tm p)) !! j = Some x -> In bu (bursts x) ->
  exists x0, ritems (reveal p) !! j = Some x0 /\ In bu (bursts x0).
Proof.
  unfold fire. destruct (cb tm) as [|i b'] eqn:Hc; cbn [reveal]; [eauto|].
  intros Hx Hb. apply (remove_burst_sub i b' _ j x bu Hx Hb).
Qed.

Lemma fire_no_burst (tm : Timer) (p : Page) (j bid : nat) :
  no_burst j bid (reveal p) -> no_burst j bid (reveal (fire tm p)).
Proof.
  intros H x Hx bu Hbu. destruct (fire_reveal_sub tm p j x bu Hx Hbu) as (x0 & H0 & B0).
  exact (H x0 H0 bu B0).
Qed.

(** Once the due timers have fired, a burst whose cleanup timer was due
    is gone. *)
Lemma fire_due_removes (fuel : nat) (t : Q) (p : Page) (j bid : nat) :
  tid_unique (timers p) -> (length (timers p) <= fuel)%nat ->
  (exists tm, In tm (timers p) /\ cb tm = TRemoveBurst j bid /\ due tm <= t)
  \/ no_burst j bid (reveal p) ->
  no_burst j bid (reveal (fire_due fuel t p)).
Proof.
  revert p; induction fuel as [|f IH]; intros p Hu Hlen K; simpl.
  - destruct K as [(tm & Hin & _)|K]; [destruct (timers p); simpl in *; [destruct Hin | lia] | exact K].
  - destruct (earliest (timers p) t) as [tm'|] eqn:E.
    + destruct (earliest_some _ _ _ E) as [Hin' _]. apply IH.
      * rewrite fire_timers. apply tid_unique_filter, Hu.
      * pose proof (fire_shrinks tm' p Hin'). lia.
      * destruct K as [(tm & Hin & Hcb & Hdue)|K]; [|right; apply fire_no_burst, K].
        destruct (Nat.eqb_spec (tid tm) (tid tm')) as [Eq|Ne].
        { right. pose proof (tid_unique_inj _ Hu tm tm' Hin Hin' Eq) as <-.
          intros x Hx bu Hbu. unfold fire in Hx. rewrite Hcb in Hx. cbn [reveal] in Hx.
          exact (remove_burst_gone _ _ _ _ _ Hx Hbu). }
        left. exists tm. split; [|auto]. rewrite fire_timers. apply filter_In. split; [exact Hin|].
        destruct (Nat.eqb_spec (tid tm) (tid tm')); [contradiction | reflexivity].
    + destruct K as [(tm & Hin & _ & Hdue)|K]; [|exact K].
      pose proof (earliest_none _ _ E tm Hin). lra.
Qed.

(** C9: every burst present now is gone once the clock has advanced by
    1200 ms: the cleanup timers bound the lifetime of the particle
    effects. *)
Theorem page_bursts_removed (p : Page) (j : nat) (x : RevealItem) (b : Burst) :
  reachable reduced rand hypot p -> ritems (reveal p) !! j = Some x -> In b (bursts x) ->
  no_burst j (burst_id b)
    (reveal (page_step reduced rand hypot p (Advance (now p + CLEANUP_DELAY)))).
Proof.
  intros Hr Hx Hb. destruct (reachable_inv p Hr) as (_ & _ & Hu).
  destruct (proj2 (reachable_cleanup p Hr) j x b Hx Hb) as (tm & Hin & Hcb & Hdue).
  cbn [page_step]. unfold advance.
  destruct (Qle_bool_spec (now p) (now p + CLEANUP_DELAY)) as [_|Hc];
    [|exfalso; apply Hc; unfold CLEANUP_DELAY; lra].
  unfold tick_anims, with_drags; cbn [reveal].
  apply fire_due_removes; [exact Hu | lia | left; eauto].
Qed.

End WithParams.
End PageFacts.

(** ** Witnesses on a page with three cards *)

Module PageWitness.
Import PageFacts Sample.

Lemma p0_reachable : reachable false rnd hypot_max p0.
Proof. apply reach_init. Qed.

Lemma page_sched_wf_witness : sched_wf (sched (step p0 Scroll)).
Proof. apply (page_sched_wf false rnd hypot_max). apply reach_step, reach_init. Defined.

Lemma page_scroll_redraws_witness :
  svg (step (step p0 Scroll) (Frame (mkRect 0 0 800 600) []))
  = connectors (mkRect 0 0 800 600) []
  /\ sched (step (step p0 Scroll) (Frame (mkRect 0 0 800 600) [])) = sched_init.
Proof. apply (page_scroll_redraws false rnd hypot_max). apply reach_init. Defined.

Lemma page_drag_independent_witness :
  drags (step p0 (DragMove 0 500 0)) !! 1%nat = drags p0 !! 1%nat.
Proof. apply (page_drag_independent false rnd hypot_max p0 _ 0 1); [reflexivity | lia]. Defined.

Lemma page_drag_move_redraws_witness :
  drags (step p0 (DragMove 0 500 0)) !! 0%nat = Some (fst (drag_move hypot_max 500 0 drag_init))
  /\ scheduled (sched (step p0 (DragMove 0 500 0))) = true.
Proof. apply (page_drag_move_redraws false rnd hypot_max p0 0 500 0 drag_init). reflexivity. Defined.

Lemma page_resize_debounce_witness :
  timers (Nat.iter 3 (fun q => step q Resize) p0)
  = timers (clearTimeout (resizeTimer p0) p0) ++ [mkTimer (0 + (3 - 1)) (0 + 120) TDraw]
  /\ resizeTimer (Nat.iter 3 (fun q => step q Resize) p0) = Some (0 + (3 - 1))%nat.
Proof. apply (page_resize_debounce false rnd hypot_max p0 3); [apply reach_init | lia]. Defined.

Lemma page_drag_end_settles_witness :
  scheduled (sched (step (step p0 (DragEnd 0)) (Advance (now p0 + SETTLE_DELAY)))) = true
  /\ exists it2, drags (step (step p0 (DragEnd 0)) (Advance (now p0 + SETTLE_DELAY))) !! 0%nat = Some it2
       /\ anims it2 = [] /\ transform it2 = Some (0, 0) /\ pos it2 = (0, 0).
Proof. apply (page_drag_end_settles false rnd hypot_max p0 0 drag_init); [apply reach_init | reflexivity]. Defined.

Lemma page_in_view_monotone_witness :
  exists x', ritems (reveal (step p1 Scroll)) !! 0%nat = Some x'
             /\ has_class "in-view"%string x' = true.
Proof. apply (page_in_view_monotone false rnd hypot_max p1 Scroll 0 revealed_item); reflexivity. Defined.

Lemma page_bursts_tracked_witness :
  exists tm, In tm (timers p1) /\ cb tm = TRemoveBurst 0 0 /\ due tm <= now p1 + CLEANUP_DELAY.
Proof.
  apply (page_bursts_tracked false rnd hypot_max p1 0 revealed_item (mkBurst 0 sparks0)).
  - apply reach_step, reach_init.
  - reflexivity.
  - left; reflexivity.
Defined.

Lemma page_bursts_removed_witness :
  no_burst 0 0 (reveal (step p1 (Advance (now p1 + CLEANUP_DELAY)))).
Proof.
  apply (page_bursts_removed false rnd hypot_max p1 0 revealed_item (mkBurst 0 sparks0)).
  - apply reach_step, reach_init.
  - reflexivity.
  - left; reflexivity.
Defined.

End PageWitness.
