(* ===== verification/Boot.v ===== *)
(** * Bootstrap: [PREFERS_REDUCED], [renderTimeline] and the page session

    [src/credentials.js] line 6 reads [PREFERS_REDUCED] once, at load,
    from [window.matchMedia('(prefers-reduced-motion:reduce)')]; lines
    171-175 run [renderTimeline] on [#credentials-root] when the document
    is loaded.  [renderTimeline] (lines 15-108) builds the DOM
    ([Render.renderTimeline_dom]) and then the runtime state of the page:
    one observed item per [li.timeline-item] (line 97), one drag state per
    [.timeline-content] (line 139), the initial [drawConnectors()]
    (line 100) ([Page.page_init]).

    - [matchMedia] is an oracle from media queries to booleans.
    - [renderTimeline] pairs the DOM with the initial [Page];
      [on_DOMContentLoaded] is the listener of lines 171-175, and
      [session] runs the events the host delivers afterwards through
      [Page.page_step], with [reduced] the value [PREFERS_REDUCED] read.

    The theorems compose [Render] and [Page]: a session keeps one reveal
    item and one drag state per card of the dataset, and under reduced
    motion [Math.random] is never called, no burst is ever attached and
    the only pending timers are redraws. *)

From Stdlib Require Import QArith String List Bool Lia.
From stdpp Require Import base list.
From S2P Require Import Prelude Dataset Geometry Render Scheduler Drag Sparkle Reveal Page.
Import ListNotations.
Open Scope Q_scope.

(** Line 6: the media query the code reads. *)
Definition PREFERS_REDUCED (matchMedia : string -> bool) : bool :=
  matchMedia "(prefers-reduced-motion:reduce)"%string.

(** Lines 15-108: the DOM of the section, and the page state the
    listeners share once [renderTimeline] returns. *)
Definition renderTimeline (container : Node) (section : TimelineSection) (t0 : Q) : Node * Page :=
  let dom := renderTimeline_dom container section in
  (dom, page_init (List.length (qsa "timeline-item" dom)) t0).

(** Lines 171-175. *)
Definition on_DOMContentLoaded (root : option Node) (t0 : Q) : option (Node * Page) :=
  match root with
  | None => None
  | Some c => Some (renderTimeline c CREDENTIALS_SECTION t0)
  end.

(** The page after the load event and then [events]. *)
Definition session (matchMedia : string -> bool) (rand : nat -> Q) (hypot : Q -> Q -> Q)
    (root : option Node) (t0 : Q) (events : list event) : option (Node * Page) :=
  match on_DOMContentLoaded root t0 with
  | None => None
  | Some (dom, p) => Some (dom, fold_left (page_step (PREFERS_REDUCED matchMedia) rand hypot) events p)
  end.

(** Every pending timer is a redraw. *)
Definition only_redraws (p : Page) : Prop := Forall (fun tm => cb tm = TDraw) (timers p).

(** No random value drawn and no removal timer pending. *)
Definition quiet (p : Page) : Prop := rng (reveal p) = 0%nat /\ only_redraws p.

(** One reveal item and one drag state for each of [n] entries. *)
Definition shaped (n : nat) (p : Page) : Prop :=
  List.length (ritems (reveal p)) = n /\ List.length (drags p) = n.

(** ** Properties *)

Module BootFacts.
Import PageFacts RevealFacts.

(** *** Reduced motion *)

Lemma only_redraws_setTimeout (d : Q) (p : Page) :
  only_redraws p -> only_redraws (fst (setTimeout TDraw d p)).
Proof. intros H. unfold only_redraws; simpl. apply Forall_app. split; [exact H | repeat constructor]. Qed.

Lemma run_drag_effects_quiet (effs : list DragEffect) (p : Page) :
  quiet p -> quiet (fold_left run_drag_effect effs p).
Proof.
  revert p; induction effs as [|e effs IH]; intros p Hq; simpl; [exact Hq|].
  apply IH. destruct e; [exact Hq|]. destruct Hq as [Hr Ht].
  split; [exact Hr | apply only_redraws_setTimeout, Ht].
Qed.

Lemma on_drag_quiet (f : DragItem -> DragItem * list DragEffect) (i : nat) (p : Page) :
  quiet p -> quiet (on_drag f i p).
Proof.
  intros Hq. unfold on_drag. destruct (drags p !! i) as [it|]; [|exact Hq].
  destruct (f it). apply run_drag_effects_quiet, Hq.
Qed.

Lemma fire_quiet (tm : Timer) (p : Page) : quiet p -> quiet (fire tm p).
Proof.
  intros [Hr Ht]. split.
  - unfold fire. destruct (cb tm); simpl; [exact Hr|].
    unfold remove_burst. destruct (_ !! _); exact Hr.
  - unfold only_redraws. rewrite fire_timers. apply Forall_filter_timers, Ht.
Qed.

Lemma fire_due_quiet (fuel : nat) (t : Q) (p : Page) : quiet p -> quiet (fire_due fuel t p).
Proof.
  revert p; induction fuel as [|f IH]; intros p Hq; simpl; [exact Hq|].
  destruct (earliest (timers p) t); auto using fire_quiet.
Qed.

Lemma page_step_quiet (rand : nat -> Q) (hypot : Q -> Q -> Q) (p : Page) (e : event) :
  quiet p -> quiet (page_step true rand hypot p e).
Proof.
  intros Hq. destruct e; cbn [page_step]; try (apply on_drag_quiet, Hq).
  - exact Hq.
  - destruct Hq as [Hr Ht]. split; [unfold on_resize; destruct (resizeTimer p); exact Hr|].
    unfold only_redraws. rewrite (proj1 (on_resize_shape p)). apply Forall_app.
    split; [|repeat constructor]. destruct (resizeTimer p); [apply Forall_filter_timers|]; exact Ht.
  - unfold on_intersect. destruct (io_fold_reduced rand entries (reveal p, [])) as (E1 & R1 & _).
    unfold io_callback. destruct (fold_left _ entries (reveal p, [])) as [rs effs].
    cbn [fst snd] in E1, R1. subst effs. destruct Hq as [Hr Ht]. split; [|exact Ht].
    cbn [fold_left reveal]. rewrite R1. exact Hr.
  - unfold on_frame. destruct (frame _ _). exact Hq.
  - unfold advance. destruct (Qle_bool (now p) t); [|exact Hq].
    destruct (fire_due_quiet (length (timers p)) t p Hq) as [Hr Ht]. split; assumption.
Qed.

Lemma reachable_quiet (rand : nat -> Q) (hypot : Q -> Q -> Q) (p : Page) :
  reachable true rand hypot p -> quiet p.
Proof.
  induction 1 as [n t0|p e _ IH]; [split; [reflexivity | constructor] | apply page_step_quiet, IH].
Qed.

(** *** One state per entry *)

Lemma io_entry_length (reduced : bool) (rand : nat -> Q) (acc : RevealState * list RevealEffect)
    (en : Entry) :
  List.length (ritems (fst (io_entry reduced rand acc en))) = List.length (ritems (fst acc)).
Proof.
  destruct acc as [st effs]; unfold io_entry; simpl.
  destruct (isIntersecting en); [|reflexivity].
  destruct (ritems st !! target en); [|reflexivity].
  repeat case_match; simpl; rewrite ?length_insert; reflexivity.
Qed.

Lemma io_fold_length (reduced : bool) (rand : nat -> Q) (entries : list Entry)
    (acc : RevealState * list RevealEffect) :
  List.length (ritems (fst (fold_left (io_entry reduced rand) entries acc)))
  = List.length (ritems (fst acc)).
Proof.
  revert acc; induction entries as [|en entries IH]; intros acc; simpl; [reflexivity|].
  rewrite IH. apply io_entry_length.
Qed.

Lemma remove_burst_length (i b : nat) (st : RevealState) :
  List.length (ritems (remove_burst i b st)) = List.length (ritems st).
Proof. unfold remove_burst. destruct (_ !! _); simpl; rewrite ?length_insert; reflexivity. Qed.

Lemma run_reveal_effects_drags (effs : list RevealEffect) (p : Page) :
  drags (fold_left run_reveal_effect effs p) = drags p.
Proof.
  revert p; induction effs as [|e effs IH]; intros p; simpl; [reflexivity|].
  rewrite IH. destruct e; reflexivity.
Qed.

Lemma fire_due_shaped (n fuel : nat) (t : Q) (p : Page) :
  shaped n p -> shaped n (fire_due fuel t p).
Proof.
  revert p; induction fuel as [|f IH]; intros p Hs; simpl; [exact Hs|].
  destruct (earliest (timers p) t) as [tm|]; [apply IH|exact Hs].
  destruct Hs as [Hr Hd]. unfold fire. destruct (cb tm); split; simpl;
    rewrite ?remove_burst_length, ?length_map; assumption.
Qed.

Lemma on_drag_shaped (n : nat) (f : DragItem -> DragItem * list DragEffect) (i : nat) (p : Page) :
  shaped n p -> shaped n (on_drag f i p).
Proof.
  intros [Hr Hd]. unfold on_drag. destruct (drags p !! i) as [it|]; [|split; assumption].
  destruct (f it) as [it' effs]. destruct (run_drag_effects_drags effs (with_drags (<[i:=it']> (drags p)) p)) as [E1 E2].
  split; [rewrite E2; exact Hr | rewrite E1; simpl; rewrite length_insert; exact Hd].
Qed.

Lemma page_step_shaped (reduced : bool) (rand : nat -> Q) (hypot : Q -> Q -> Q) (n : nat)
    (p : Page) (e : event) :
  shaped n p -> shaped n (page_step reduced rand hypot p e).
Proof.
  intros Hs. destruct e; cbn [page_step]; try (apply on_drag_shaped, Hs).
  - exact Hs.
  - unfold on_resize. destruct (resizeTimer p); exact Hs.
  - destruct Hs as [Hr Hd]. unfold on_intersect, io_callback.
    pose proof (io_fold_length reduced rand entries (reveal p, [])) as Hl.
    destruct (fold_left _ entries (reveal p, [])) as [rs effs].
    split; [rewrite run_reveal_effects_reveal | rewrite run_reveal_effects_drags]; simpl in *; congruence.
  - unfold on_frame. destruct (frame _ _). exact Hs.
  - unfold advance. destruct (Qle_bool (now p) t); [|exact Hs].
    destruct (fire_due_shaped n (length (timers p)) t p Hs) as [Hr Hd].
    split; simpl; rewrite ?length_map; assumption.
Qed.

(** A session is a run of the event loop from its initial page. *)
Lemma session_run (reduced : bool) (rand : nat -> Q) (hypot : Q -> Q -> Q) (n : nat)
    (events : list event) (p : Page) :
  reachable reduced rand hypot p -> shaped n p ->
  reachable reduced rand hypot (fold_left (page_step reduced rand hypot) events p)
  /\ shaped n (fold_left (page_step reduced rand hypot) events p).
Proof.
  revert p; induction events as [|e events IH]; intros p Hr Hs; simpl; [auto|].
  apply IH; [apply reach_step, Hr | apply page_step_shaped, Hs].
Qed.

(** *** The claims *)

(** C11: when the user prefers reduced motion, nothing of the particle
    effect ever happens: on every page the event loop reaches,
    [Math.random] has never been called, no dot carries a burst and the
    only pending timers are redraws. *)
Theorem reduced_motion_quiet (matchMedia : string -> bool) (rand : nat -> Q)
    (hypot : Q -> Q -> Q) (p : Page) :
  PREFERS_REDUCED matchMedia = true -> reachable (PREFERS_REDUCED matchMedia) rand hypot p ->
  rng (reveal p) = 0%nat /\ only_redraws p
  /\ forall j x, ritems (reveal p) !! j = Some x -> bursts x = [].
Proof.
  intros Hm. rewrite Hm. intros Hr. destruct (reachable_quiet rand hypot p Hr) as [Hrng Ht].
  split; [exact Hrng|]. split; [exact Ht|]. intros j x Hx.
  destruct (bursts x) as [|b bs] eqn:Hb; [reflexivity|]. exfalso.
  destruct (proj2 (reachable_cleanup true rand hypot p Hr) j x b Hx) as (tm & Hin & Hc & _);
    [rewrite Hb; left; reflexivity|].
  unfold only_redraws in Ht. rewrite List.Forall_forall in Ht. rewrite (Ht tm Hin) in Hc. discriminate.
Qed.

(** C24: after the load event, whatever events follow, the page is one the
    event loop reaches from [renderTimeline]'s initial state, and it keeps
    exactly one reveal item and one drag state per card of the dataset,
    as many as the [.timeline-content] boxes [enableCardDrag] finds; without
    [#credentials-root] there is no session. *)
Theorem session_shape (matchMedia : string -> bool) (rand : nat -> Q) (hypot : Q -> Q -> Q)
    (ns : Ns) (tag : string) (a : list (string * string)) (ch : list Node) (t0 : Q)
    (events : list event) :
  session matchMedia rand hypot None t0 events = None
  /\ exists dom p,
    session matchMedia rand hypot (Some (Elem ns tag a ch)) t0 events = Some (dom, p)
    /\ reachable (PREFERS_REDUCED matchMedia) rand hypot p
    /\ shaped (List.length (cards CREDENTIALS_SECTION)) p
    /\ List.length (qsa "timeline-content" dom) = List.length (cards CREDENTIALS_SECTION).
Proof.
  split; [reflexivity|]. unfold session, on_DOMContentLoaded, renderTimeline.
  eexists _, _. split; [reflexivity|].
  rewrite RenderFacts.qsa_items, RenderFacts.qsa_contents_length, length_map.
  destruct (session_run (PREFERS_REDUCED matchMedia) rand hypot (List.length (cards CREDENTIALS_SECTION))
              events (page_init (List.length (cards CREDENTIALS_SECTION)) t0)) as [H1 H2];
    [apply reach_init | split; apply length_replicate |].
  split; [exact H1 | split; [exact H2 | reflexivity]].
Qed.

End BootFacts.

Module BootWitness.
Import BootFacts.

(** A page of a reduced-motion session after the first card came into
    view. *)
Lemma reduced_motion_quiet_witness :
  let p := page_step true Sample.rnd hypot_max (page_init 3 0) (Intersect [mkEntry 0 true]) in
  rng (reveal p) = 0%nat /\ only_redraws p
  /\ forall j x, ritems (reveal p) !! j = Some x -> bursts x = [].
Proof.
  apply (reduced_motion_quiet (fun _ => true) Sample.rnd hypot_max); [reflexivity|].
  apply reach_step, reach_init.
Defined.

End BootWitness.
